(** * datus-hive: configuration extraction and result normalisation

    A shallow embedding of [datus_hive/config.py] and
    [datus_hive/connector.py], and the properties of the adapter that the
    specification states about them.

    Conventions of the embedding.
    - A Python [str] is a [string]; a character is the Unicode code point
      with the number of the [ascii] (0..255), so the character classes
      below are those of Python on that range.
    - A Python [int] is a [Z].  The conversions between [int] and [str]
      have the limit that CPython places on them: [int(s)], [str(z)] and
      the formatting of [z] in an f-string raise [ValueError] beyond
      [max_str_digits] decimal digits.  The cells of a result frame lie
      within the limit, and their text is taken with the total [py_str].
    - A [dict] whose iteration order cannot be observed in the result is a
      [gmap]; the loops over [.items()] are folds over the map.
    - A raised exception is the left summand of [result]. *)

From Stdlib Require Import ZArith NArith Ascii String DecimalString Lia.
From Stdlib Require DecimalN DecimalZ.
From stdpp Require Import base option list gmap fin_maps strings.

(** ** Exceptions and fallible computations *)

Inductive field_error :=
  | Missing
  | InvalidType.

(** The exceptions (instances of [Exception]) that cross the code under
    study.  A pydantic [ValidationError] carries, for the declared fields
    in declaration order, the ones that failed, and the set of the keys
    that are not declared fields. *)
Inductive pyexn :=
  | ValidationError (field_errors : list (string * field_error))
                    (extra_forbidden : gset string)
  | ValueError
  | AttributeError
  | KeyError
  | DriverError (msg : string).

Definition result (A : Type) : Type := pyexn + A.

Abbreviation Ok := inr.
Abbreviation Raise := inl.

Definition raises {A} (r : result A) : Prop := ∃ e, r = Raise e.

Definition to_option {A} (r : result A) : option A :=
  match r with
  | inl _ => None
  | inr a => Some a
  end.

Definition rbind {A B} (r : result A) (k : A → result B) : result B :=
  match r with
  | inl e => inl e
  | inr a => k a
  end.

Notation "'do' x <- r ; k" := (rbind r (fun x => k))
  (at level 10, x name, r at level 100, k at level 200, only parsing).

(** ** Python scalars *)

(** The values found in a carrier map, in a settings dictionary and in the
    cells of a result frame.  [VOther repr] is any further object (a float,
    a date, ...), given by the text that [str()] returns for it. *)
Inductive pyval :=
  | VNone
  | VBool (b : bool)
  | VInt (z : Z)
  | VStr (s : string)
  | VOther (repr : string).

Global Instance pyval_eq_dec : EqDecision pyval.
Proof. solve_decision. Defined.

Definition is_none (v : pyval) : bool :=
  match v with VNone => true | _ => false end.

Definition isinstance_bool (v : pyval) : bool :=
  match v with VBool _ => true | _ => false end.

Definition isinstance_str (v : pyval) : bool :=
  match v with VStr _ => true | _ => false end.

(** ** Characters and strings *)

Definition code (c : ascii) : N := N_of_ascii c.

(** [c.isdecimal()]: the ten characters 0..9. *)
Definition is_decimal (c : ascii) : bool :=
  (48 <=? code c)%N && (code c <=? 57)%N.

(** [c.isdigit()]: the decimal characters and, below 256, the superscripts
    two, three and one (U+00B2, U+00B3, U+00B9). *)
Definition char_isdigit (c : ascii) : bool :=
  is_decimal c || (code c =? 178)%N || (code c =? 179)%N || (code c =? 185)%N.

(** [c.isspace()] below 256. *)
Definition char_isspace (c : ascii) : bool :=
  ((9 <=? code c)%N && (code c <=? 13)%N)
  || ((28 <=? code c)%N && (code c <=? 32)%N)
  || (code c =? 133)%N || (code c =? 160)%N.

(** [c.lower()] below 256: A..Z, and the upper-case letters of Latin-1
    (U+00C0..U+00DE without the multiplication sign U+00D7). *)
Definition char_lower (c : ascii) : ascii :=
  if ((65 <=? code c)%N && (code c <=? 90)%N)
     || ((192 <=? code c)%N && (code c <=? 222)%N && negb (code c =? 215)%N)
  then ascii_of_N (code c + 32)
  else c.

Fixpoint str_all (p : ascii → bool) (s : string) : bool :=
  match s with
  | EmptyString => true
  | String c s' => p c && str_all p s'
  end.

Definition nonempty (s : string) : bool :=
  match s with EmptyString => false | String _ _ => true end.

Definition nonempty_list {A} (l : list A) : bool :=
  match l with [] => false | _ :: _ => true end.

(** [s.isdigit()]: at least one character, and all of them digits. *)
Definition isdigit (s : string) : bool := nonempty s && str_all char_isdigit s.

(** [s.lower()] *)
Fixpoint lower (s : string) : string :=
  match s with
  | EmptyString => EmptyString
  | String c s' => String (char_lower c) (lower s')
  end.

(** [s.startswith(p)] *)
Fixpoint startswith (s p : string) : bool :=
  match p, s with
  | EmptyString, _ => true
  | String a p', String b s' => if decide (a = b) then startswith s' p' else false
  | String _ _, EmptyString => false
  end.

(** [s[n:]] *)
Fixpoint slice_from (n : nat) (s : string) : string :=
  match n, s with
  | O, _ => s
  | S n', String _ s' => slice_from n' s'
  | S _, EmptyString => EmptyString
  end.

Fixpoint lstrip (s : string) : string :=
  match s with
  | EmptyString => EmptyString
  | String c s' => if char_isspace c then lstrip s' else s
  end.

Fixpoint rstrip (s : string) : string :=
  match s with
  | EmptyString => EmptyString
  | String c s' =>
      match rstrip s' with
      | EmptyString => if char_isspace c then EmptyString else String c EmptyString
      | r => String c r
      end
  end.

(** [s.strip()] *)
Definition strip (s : string) : string := rstrip (lstrip s).

(** [s.replace(old, new)] for a one-character [old]. *)
Fixpoint replace_char (old : ascii) (new : string) (s : string) : string :=
  match s with
  | EmptyString => EmptyString
  | String c s' =>
      if decide (c = old) then new +:+ replace_char old new s'
      else String c (replace_char old new s')
  end.

(** ** Integers and their decimal text *)

(** [sys.int_info.default_max_str_digits], the number of decimal digits up
    to which CPython converts between [int] and [str]. *)
Definition max_str_digits : nat := 4300.

(** The decimal text of an integer, with its sign. *)
Definition str_of_int (z : Z) : string := NilZero.string_of_int (Z.to_int z).

(** Whether the decimal text of [z], the sign apart, has more digits than
    the limit. *)
Definition exceeds_max_str_digits (z : Z) : bool :=
  (max_str_digits <? String.length (str_of_int (Z.abs z)))%nat.

(** [str(z)] for an [int], which is also [f"{z}"]. *)
Definition int_str (z : Z) : result string :=
  if exceeds_max_str_digits z then Raise ValueError else Ok (str_of_int z).

Definition decimal_value (c : ascii) : option Z :=
  if is_decimal c then Some (Z.of_N (code c) - 48)%Z else None.

Fixpoint int_digits (acc : Z) (s : string) : result Z :=
  match s with
  | EmptyString => Ok acc
  | String c s' =>
      match decimal_value c with
      | Some d => int_digits (10 * acc + d)%Z s'
      | None => Raise ValueError
      end
  end.

(** [int(s)] for a string of digits: the number that the decimal
    characters denote, and [ValueError] on the empty string, on a string
    of more characters than the limit of digits, and on a character that
    is not decimal.  (The signs, blanks and underscores that [int] also
    reads do not occur in a string on which [isdigit()] holds.) *)
Definition int_of_str (s : string) : result Z :=
  if nonempty s
  then
    if (max_str_digits <? String.length s)%nat then Raise ValueError
    else int_digits 0 s
  else Raise ValueError.

(** The text of [str(v)]: what [str(v)] returns whenever it returns. *)
Definition py_str (v : pyval) : string :=
  match v with
  | VNone => "None"
  | VBool true => "True"
  | VBool false => "False"
  | VInt z => str_of_int z
  | VStr s => s
  | VOther repr => repr
  end.

(** [str(v)]: an integer beyond the limit of digits has no text. *)
Definition str_value (v : pyval) : result string :=
  match v with
  | VInt z => int_str z
  | _ => Ok (py_str v)
  end.

(** ** config.py *)

(** The first loop of [_extract_prefixed_config]: one entry of
    [carrier_map.items()]. *)
Definition strip_prefix (prefix : string) (key : string) (value : pyval)
    (hive_config : gmap string pyval) : gmap string pyval :=
  if startswith key prefix
  then <[slice_from (String.length prefix) key := value]> hive_config
  else hive_config.

(** The value that the second loop stores under a base key: the integer
    for a port given as a string of digits, the value itself otherwise. *)
Definition base_value (key : string) (value : pyval) : result pyval :=
  match value with
  | VStr s =>
      if bool_decide (key = "port") && isdigit s
      then do n <- int_of_str s; Ok (VInt n)
      else Ok value
  | _ => Ok value
  end.

(** The second loop: one entry of [hive_config.items()], on the pair
    [(configuration_params, base_params)]. *)
Definition split_entry (key : string) (value : pyval)
    (acc : result (gmap string pyval * gmap string pyval))
    : result (gmap string pyval * gmap string pyval) :=
  do params <- acc;
  let '(configuration_params, base_params) := params in
  if startswith key "configuration."
  then Ok (<[slice_from 14 key := value]> configuration_params, base_params)
  else
    do stored <- base_value key value;
    Ok (configuration_params, <[key := stored]> base_params).

(** A keyword argument of [HiveConfig(...)]: a scalar, or a dictionary of
    settings. *)
Inductive pyarg :=
  | Scalar (v : pyval)
  | Dict (d : gmap string pyval).

Definition _extract_prefixed_config (carrier_map : gmap string pyval)
    (prefix : string) : result (gmap string pyarg) :=
  let hive_config := map_fold (strip_prefix prefix) ∅ carrier_map in
  do params <- map_fold split_entry (Ok (∅, ∅)) hive_config;
  let '(configuration_params, base_params) := params in
  let result := Scalar <$> base_params in
  Ok (<["configuration" := Dict configuration_params]> result).

Record HiveConfig := {
  host : string;
  port : Z;
  database : option string;
  username : string;
  password : string;
  auth : option string;
  configuration : gmap string pyval;
  timeout_seconds : Z;
}.

(** The declared type of a field of [HiveConfig]. *)
Inductive ftype :=
  | TStr
  | TOptionalStr
  | TInt
  | TDict.

Definition declared_type (name : string) : option ftype :=
  if decide (name = "host") then Some TStr
  else if decide (name = "port") then Some TInt
  else if decide (name = "database") then Some TOptionalStr
  else if decide (name = "username") then Some TStr
  else if decide (name = "password") then Some TStr
  else if decide (name = "auth") then Some TOptionalStr
  else if decide (name = "configuration") then Some TDict
  else if decide (name = "timeout_seconds") then Some TInt
  else None.

(** The keys of [kwargs] that are not declared fields. *)
Definition extra_keys {A} (kwargs : gmap string A) : gset string :=
  filter (λ k, declared_type k = None) (dom kwargs).

Section Pydantic.

(** The validators of pydantic are not part of the adapter.  An input
    that already has the declared type is accepted as it is; what the
    lax mode does with any other input (the text of a number for an
    [int], ...) is left open. *)
Variable lax_int : pyval → option Z.
Variable lax_str : pyval → option string.

Definition validate_str (a : pyarg) : option string :=
  match a with
  | Scalar (VStr s) => Some s
  | Scalar v => lax_str v
  | Dict _ => None
  end.

Definition validate_optional_str (a : pyarg) : option (option string) :=
  match a with
  | Scalar VNone => Some None
  | _ => Some <$> validate_str a
  end.

Definition validate_int (a : pyarg) : option Z :=
  match a with
  | Scalar (VInt z) => Some z
  | Scalar v => lax_int v
  | Dict _ => None
  end.

Definition validate_dict (a : pyarg) : option (gmap string pyval) :=
  match a with
  | Dict d => Some d
  | Scalar _ => None
  end.

(** Whether a value can be coerced to a declared type. *)
Definition coercible (t : ftype) (a : pyarg) : bool :=
  match t with
  | TStr => bool_decide (is_Some (validate_str a))
  | TOptionalStr => bool_decide (is_Some (validate_optional_str a))
  | TInt => bool_decide (is_Some (validate_int a))
  | TDict => bool_decide (is_Some (validate_dict a))
  end.

(** One declared field: [Field(default=d)] is [Some d], and
    [Field(...)], a required field, is [None]. *)
Definition field {A} (kwargs : gmap string pyarg) (name : string)
    (validate : pyarg → option A) (default : option A) : field_error + A :=
  match kwargs !! name with
  | Some a =>
      match validate a with
      | Some x => inr x
      | None => inl InvalidType
      end
  | None =>
      match default with
      | Some d => inr d
      | None => inl Missing
      end
  end.

Definition field_errors {A} (name : string) (r : field_error + A)
    : list (string * field_error) :=
  match r with
  | inl e => [(name, e)]
  | inr _ => []
  end.

(** The constructor [HiveConfig], called with the keyword arguments
    [kwargs]; the model is declared with [extra = forbid]. *)
Definition HiveConfig_init (kwargs : gmap string pyarg) : result HiveConfig :=
  let f_host := field kwargs "host" validate_str (Some "127.0.0.1") in
  let f_port := field kwargs "port" validate_int (Some 10000%Z) in
  let f_database := field kwargs "database" validate_optional_str (Some None) in
  let f_username := field kwargs "username" validate_str None in
  let f_password := field kwargs "password" validate_str (Some "") in
  let f_auth := field kwargs "auth" validate_optional_str (Some None) in
  let f_configuration := field kwargs "configuration" validate_dict (Some ∅) in
  let f_timeout := field kwargs "timeout_seconds" validate_int (Some 30%Z) in
  let extra := extra_keys kwargs in
  let errors :=
    field_errors "host" f_host ++ field_errors "port" f_port
    ++ field_errors "database" f_database ++ field_errors "username" f_username
    ++ field_errors "password" f_password ++ field_errors "auth" f_auth
    ++ field_errors "configuration" f_configuration
    ++ field_errors "timeout_seconds" f_timeout in
  match f_host, f_port, f_database, f_username,
        f_password, f_auth, f_configuration, f_timeout with
  | inr h, inr p, inr d, inr u, inr pw, inr a, inr c, inr t =>
      if decide (extra = ∅)
      then Ok {| host := h; port := p; database := d; username := u;
                 password := pw; auth := a; configuration := c;
                 timeout_seconds := t |}
      else Raise (ValidationError [] extra)
  | _, _, _, _, _, _, _, _ => Raise (ValidationError errors extra)
  end.

(** [HiveConfig.from_config_map] *)
Definition from_config_map (config_map : gmap string pyval) (prefix : string)
    : result HiveConfig :=
  do extracted <- _extract_prefixed_config config_map prefix;
  HiveConfig_init extracted.

End Pydantic.

(** ** connector.py: the pure helpers *)



Definition backtick : ascii := "`"%char.

Definition _quote_identifier (identifier : string) : string :=
  let escaped := replace_char backtick "``" identifier in
  "`" +:+ escaped +:+ "`".

(** *** Result frames *)

(** A pandas [DataFrame] with the default index: the number of rows and
    the columns in order, each a label and its cells.  Labels are strings,
    as the driver returns them. *)
Record DataFrame := {
  nrows : nat;
  frame : list (string * list pyval);
}.

(** [df.columns] *)
Definition columns (df : DataFrame) : list string := (frame df).*1.

(** [df.empty]: one of the two axes has length 0. *)
Definition empty (df : DataFrame) : bool :=
  bool_decide (nrows df = 0) || bool_decide (frame df = []).

(** The columns of [df] under the label [col]. *)
Definition labelled (col : string) (df : DataFrame) : list (string * list pyval) :=
  filter (λ c, c.1 = col) (frame df).

(** [df[col].tolist()].  For a label that occurs once, [df[col]] is the
    column; for a repeated label it is a frame again, which has no
    [tolist]. *)
Definition tolist (df : DataFrame) (col : string) : result (list pyval) :=
  match labelled col df with
  | [] => Raise KeyError
  | [c] => Ok c.2
  | _ :: _ :: _ => Raise AttributeError
  end.

(** [df[col][i]] for a row number [i].  On the frame that a repeated label
    selects, [i] is looked up among the labels, where it is not found. *)
Definition cell (df : DataFrame) (col : string) (i : nat) : result pyval :=
  match labelled col df with
  | [c] =>
      match c.2 !! i with
      | Some v => Ok v
      | None => Raise KeyError
      end
  | _ => Raise KeyError
  end.

(** A frame as pandas builds it: no label twice (so that every label
    selects a column) and every column as long as the index. *)
Definition well_formed (df : DataFrame) : Prop :=
  NoDup (columns df) ∧ Forall (λ c, length c.2 = nrows df) (frame df).

(** *** [_extract_table_names] *)

Definition priority_names : list string :=
  ["tablename"; "tab_name"; "table_name"; "name"].

(** The dictionary [{str(col).lower(): col for col in result.columns}]: a
    later column replaces an earlier one under the same key. *)
Definition column_map (df : DataFrame) : gmap string string :=
  foldl (λ m col, <[lower col := col]> m) ∅ (columns df).

(** The loop over the priority names, up to its [return]. *)
Fixpoint by_priority (df : DataFrame) (cm : gmap string string)
    (names : list string) : option (result (list string)) :=
  match names with
  | [] => None
  | name :: names' =>
      match cm !! name with
      | Some col => Some (do values <- tolist df col; Ok (py_str <$> values))
      | None => by_priority df cm names'
      end
  end.

(** [isinstance(value, str) and value.strip()] *)
Definition nonblank_str (v : pyval) : bool :=
  match v with
  | VStr s => nonempty (strip s)
  | _ => false
  end.

(** The second loop, up to its [return]. *)
Fixpoint by_strings (df : DataFrame) (cols : list string)
    : result (option (list string)) :=
  match cols with
  | [] => Ok None
  | col :: cols' =>
      do values <- tolist df col;
      if existsb isinstance_str values
      then
        let names := py_str <$> List.filter nonblank_str values in
        if nonempty_list names then Ok (Some names) else by_strings df cols'
      else by_strings df cols'
  end.

(** The third loop, up to its [return]. *)
Fixpoint by_values (df : DataFrame) (cols : list string)
    : result (option (list string)) :=
  match cols with
  | [] => Ok None
  | col :: cols' =>
      do values <- tolist df col;
      let names :=
        py_str <$> List.filter (λ v, negb (is_none v) && negb (isinstance_bool v)) values in
      if nonempty_list names then Ok (Some names) else by_values df cols'
  end.

Definition _extract_table_names (df : DataFrame) : result (list string) :=
  if empty df then Ok []
  else
    match by_priority df (column_map df) priority_names with
    | Some r => r
    | None =>
        do found <- by_strings df (columns df);
        match found with
        | Some names => Ok names
        | None =>
            do found' <- by_values df (columns df);
            match found' with
            | Some names => Ok names
            | None => Ok []
            end
        end
    end.

(** *** The rows of [get_schema] *)

Record column_info := {
  cid : nat;
  name : string;
  type : string;
  comment : option string;
  nullable : bool;
  pk : bool;
  default_value : option pyval;
}.

(** [result.columns[n] if len(result.columns) > n else None] *)
Definition column_at (df : DataFrame) (n : nat) : option string := columns df !! n.

(** The text of a cell of the optional column [col], as in
    [str(result[col][i]).strip() if col else fallback]; an empty label is
    as false as [None]. *)
Definition cell_text (df : DataFrame) (col : option string) (i : nat)
    : result (option string) :=
  match col with
  | Some c =>
      if nonempty c
      then do v <- cell df c i; Ok (Some (strip (py_str v)))
      else Ok None
  | None => Ok None
  end.

(** The name that [get_schema] reads in a cell of the first column. *)
Definition name_of_cell (v : pyval) : string :=
  if is_none v then "" else strip (py_str v).

(** [not name or name.startswith("#")] *)
Definition ends_columns (name : string) : bool :=
  negb (nonempty name) || startswith name "#".

(** The loop [for i in range(len(result))], on the row numbers still to
    visit and the list [rows] built so far. *)
Fixpoint describe_loop (df : DataFrame) (col_name : string)
    (type_col comment_col : option string) (range : list nat)
    (rows : list column_info) : result (list column_info) :=
  match range with
  | [] => Ok rows
  | i :: range' =>
      do v <- cell df col_name i;
      let name := name_of_cell v in
      if ends_columns name then Ok rows
      else
        do data_type <- cell_text df type_col i;
        do comment <- cell_text df comment_col i;
        describe_loop df col_name type_col comment_col range'
          (rows ++ [{| cid := i; name := name;
                       type := default "" data_type; comment := comment;
                       nullable := true; pk := false;
                       default_value := None |}])
  end.

(** [get_schema] from the frame that [DESCRIBE] returned.  A frame that
    is not empty has a first column, so the last case does not arise. *)
Definition schema_of_frame (df : DataFrame) : result (list column_info) :=
  if empty df then Ok []
  else
    match column_at df 0 with
    | Some col_name =>
        describe_loop df col_name (column_at df 1) (column_at df 2)
          (seq 0 (nrows df)) []
    | None => Raise KeyError
    end.

(** *** What the specification says of the helpers *)


(** The settings whose serialisation has no text: an integer beyond the
    limit of digits. *)
Definition unprintable (v : pyval) : bool :=
  match v with
  | VInt z => exceeds_max_str_digits z
  | _ => false
  end.

(** The name field of a row of [DESCRIBE], trimmed; a field without a
    value has the empty name. *)
Definition trimmed_name (v : pyval) : string :=
  match v with
  | VNone => ""
  | VBool _ | VInt _ | VStr _ | VOther _ => strip (py_str v)
  end.

(** A trimmed name at which the columns end: empty, or beginning with a
    hash. *)
Definition sentinel (name : string) : bool :=
  match name with
  | EmptyString => true
  | String c _ => bool_decide (c = "#"%char)
  end.

(** An identifier as a list of characters, every backtick doubled. *)
Definition doubled (c : ascii) : list ascii :=
  if decide (c = backtick) then [backtick; backtick] else [c].

(** The strings among the cells of a column that are not blank. *)
Definition nonblank_strings (values : list pyval) : list string :=
  omap (λ v, match v with
             | VStr s => if nonempty (strip s) then Some s else None
             | _ => None
             end) values.

(** The names that come before the first one that ends the columns. *)
Fixpoint before_marker (names : list string) : list string :=
  match names with
  | [] => []
  | name :: names' =>
      if ends_columns name then [] else name :: before_marker names'
  end.

(** The cells of the first column, the one of the names. *)
Definition name_cells (df : DataFrame) : list pyval :=
  match frame df with
  | [] => []
  | c :: _ => c.2
  end.

(** ** connector.py: the methods that talk to the server *)

(** What a method does to the outside: a call of [self.connect()] and a
    statement handed to [self._execute_pandas]. *)
Inductive event :=
  | Connect
  | Execute (sql : string).

Section Connector.

(** The engine, its pool and the server behind it, with the two
    operations on them that the methods below use: [connect], and
    [_execute_pandas] of the base class [SQLAlchemyConnector].  Either
    can raise, and either can change the outside. *)
Variable World : Type.
Variable connect_world : World → result unit * World.
Variable execute_world : string → World → result DataFrame * World.

(** The connector object: [self.database_name], the outside, and the
    events so far, oldest first. *)
Record connector := {
  database_name : string;
  world : World;
  trace : list event;
}.

(** A method: from the state before to an outcome and the state after. *)
Definition method (A : Type) : Type := connector → result A * connector.

Definition ret {A} (a : A) : method A := λ self, (Ok a, self).

Definition lift {A} (r : result A) : method A := λ self, (r, self).

Definition bind {A B} (m : method A) (k : A → method B) : method B :=
  λ self,
    match m self with
    | (inl e, self') => (inl e, self')
    | (inr a, self') => k a self'
    end.

(** [try: x = m  except Exception as exc: return handler(exc)], followed
    by the statements [k x] after the [try]. *)
Definition try_except {A B} (m : method A) (handler : pyexn → method B)
    (k : A → method B) : method B :=
  λ self,
    match m self with
    | (inl exc, self') => handler exc self'
    | (inr a, self') => k a self'
    end.

Notation "'run' x <- m ; k" := (bind m (fun x => k))
  (at level 10, x name, m at level 100, k at level 200, only parsing).

Definition get_database_name : method string :=
  λ self, (Ok (database_name self), self).

Definition connect : method unit :=
  λ self,
    let (r, w) := connect_world (world self) in
    (r, {| database_name := database_name self; world := w;
           trace := trace self ++ [Connect] |}).

Definition _execute_pandas (sql : string) : method DataFrame :=
  λ self,
    let (r, w) := execute_world sql (world self) in
    (r, {| database_name := database_name self; world := w;
           trace := trace self ++ [Execute sql] |}).

(** [a or b] on strings *)
Definition str_or (a b : string) : string := if nonempty a then a else b.

Definition full_name (catalog_name database_name schema_name table_name : string)
    : method string :=
  run self_database_name <- get_database_name;
  let db := str_or database_name self_database_name in
  if nonempty db
  then ret (_quote_identifier db +:+ "." +:+ _quote_identifier table_name)
  else ret (_quote_identifier table_name).

(** The statement that [get_tables] builds. *)
Definition tables_sql (database_name : string) : string :=
  if nonempty database_name
  then "SHOW TABLES IN " +:+ _quote_identifier database_name
  else "SHOW TABLES".

Definition get_tables (catalog_name database_name schema_name : string)
    : method (list string) :=
  run _ <- connect;
  run self_database_name <- get_database_name;
  let database_name := str_or database_name self_database_name in
  let sql := tables_sql database_name in
  run result <- _execute_pandas sql;
  lift (_extract_table_names result).

(** The statement that [get_views] builds. *)
Definition views_sql (database_name : string) : string :=
  if nonempty database_name
  then "SHOW VIEWS IN " +:+ _quote_identifier database_name
  else "SHOW VIEWS".

Definition get_views (catalog_name database_name schema_name : string)
    : method (list string) :=
  run _ <- connect;
  run self_database_name <- get_database_name;
  let database_name := str_or database_name self_database_name in
  let sql := views_sql database_name in
  try_except (_execute_pandas sql)
    (λ exc, ret [])
    (λ result, lift (_extract_table_names result)).

Definition get_schema (catalog_name database_name schema_name table_name : string)
    : method (list column_info) :=
  if negb (nonempty table_name) then ret []
  else
    run _ <- connect;
    run self_database_name <- get_database_name;
    let database_name := str_or database_name self_database_name in
    run full <- full_name "" database_name "" table_name;
    run result <- _execute_pandas ("DESCRIBE " +:+ full);
    lift (schema_of_frame result).

End Connector.

Arguments database_name {World} _.
Arguments world {World} _.
Arguments trace {World} _.

(** ** Flattening a record into a carrier map *)

Definition optional_str (o : option string) : pyval :=
  match o with
  | Some s => VStr s
  | None => VNone
  end.

(** The entries of a record under their local keys: the seven base fields,
    with [port_value] for the port, and the settings under
    [configuration.<key>]. *)
Definition local_entries (r : HiveConfig) (port_value : pyval) : gmap string pyval :=
  <["host" := VStr (host r)]>
  (<["port" := port_value]>
  (<["database" := optional_str (database r)]>
  (<["username" := VStr (username r)]>
  (<["password" := VStr (password r)]>
  (<["auth" := optional_str (auth r)]>
  (<["timeout_seconds" := VInt (timeout_seconds r)]>
  (kmap (String.append "configuration.") (configuration r)))))))).

(** The carrier map of a record under a prefix: every local key behind the
    prefix. *)
Definition flatten_with (prefix : string) (r : HiveConfig) (port_value : pyval)
    : gmap string pyval :=
  kmap (String.append prefix) (local_entries r port_value).

(** The port as the integer it is. *)
Definition flatten (prefix : string) (r : HiveConfig) : gmap string pyval :=
  flatten_with prefix r (VInt (port r)).

(** A string of decimal characters, at least one. *)
Definition decimal (s : string) : bool := nonempty s && str_all is_decimal s.

(** The number that a string of decimal digits denotes. *)
Definition decimal_number (s : string) : Z :=
  foldl (λ acc c, 10 * acc + (Z.of_N (code c) - 48))%Z 0%Z (list_ascii_of_string s).

(** [c * n] for a character. *)
Fixpoint str_repeat (c : ascii) (n : nat) : string :=
  match n with
  | O => EmptyString
  | S n' => String c (str_repeat c n')
  end.

(** The port 10009 written with 4301 digits. *)
Definition long_port : string := str_repeat "0" 4296 +:+ "10009".

(** Validation without the conversions of the lax mode. *)
Definition strict {A} (v : pyval) : option A := None.

(** ** The invariant of the second loop *)

(** What the pair of dictionaries holds once the entries of [m] have been
    visited, or which entry made the loop raise. *)
Definition split_spec (r : result (gmap string pyval * gmap string pyval))
    (m : gmap string pyval) : Prop :=
  match r with
  | inr (cp, bp) =>
      (∀ k, cp !! k = m !! ("configuration." +:+ k))
      ∧ (∀ k, bp !! k =
          if startswith k "configuration." then None
          else m !! k ≫= λ v, to_option (base_value k v))
  | inl e =>
      ∃ k v, m !! k = Some v ∧ startswith k "configuration." = false
             ∧ base_value k v = Raise e
  end.

(** ** Data of the examples *)

(** A record used in the examples. *)
Definition sample_config : HiveConfig :=
  {| host := "10.85.24.173"; port := 10009; database := Some "test";
     username := "hue"; password := "pass"; auth := Some "CUSTOM";
     configuration := <["spark.app.name" := VStr "datacenter_carrier"]>
                        (<["spark.executor.instances" := VInt 1]> ∅);
     timeout_seconds := 30 |}.

(** A frame with the columns of the test of [get_tables]. *)
Definition show_tables_frame : DataFrame :=
  {| nrows := 1;
     frame := [("database", [VStr "default"]); ("tableName", [VStr "table_a"]);
               ("isTemporary", [VBool false])] |}.

(** A frame whose first column of strings holds blanks only. *)
Definition blank_first_frame : DataFrame :=
  {| nrows := 1; frame := [("a", [VStr "  "]); ("b", [VStr "x"])] |}.

(** The frame of the test of [get_schema]. *)
Definition describe_frame : DataFrame :=
  {| nrows := 4;
     frame := [("col_name", [VStr "id"; VStr "name";
                             VStr "# Partition Information"; VStr "dt"]);
               ("data_type", [VStr "int"; VStr "string"; VStr ""; VStr "string"]);
               ("comment", [VStr ""; VStr ""; VStr ""; VStr ""])] |}.

(** A frame of [DESCRIBE] with names to trim, and a name without a value
    before the last row. *)
Definition untrimmed_frame : DataFrame :=
  {| nrows := 4;
     frame := [("col_name", [VStr " id"; VStr "name  "; VNone; VStr "dt"]);
               ("data_type", [VStr "int"; VStr " string"; VNone; VStr "string"])] |}.

(** A frame of [DESCRIBE] with a blank name in its second row. *)
Definition blank_name_frame : DataFrame :=
  {| nrows := 3;
     frame := [("col_name", [VStr "id"; VStr "   "; VStr "dt"]);
               ("data_type", [VStr "int"; VStr ""; VStr "string"])] |}.

(** What [get_schema] says of a row, beside its name. *)
Definition row_of_frame (df : DataFrame) (r : column_info) : Prop :=
  nullable r = true ∧ pk r = false ∧ default_value r = None
  ∧ default "" <$> to_option (cell_text df (column_at df 1) (cid r)) = Some (type r)
  ∧ to_option (cell_text df (column_at df 2) (cid r)) = Some (comment r).

(** A server that accepts connections and fails every statement. *)
Definition failing_execute (sql : string) (w : unit) : result DataFrame * unit :=
  (Raise (DriverError "statement failed"), w).

Definition accepting_connect (w : unit) : result unit * unit := (Ok (), w).

Definition fresh_connector : connector unit :=
  {| database_name := "default"; world := (); trace := [] |}.

(** ** Further code of the adapter *)

(** The entries that the extraction reads: those whose key starts with the
    prefix, the one under the bare key [configuration] apart. *)
Definition behind_prefix (prefix : string) (m : gmap string pyval) : gmap string pyval :=
  filter (λ kv, startswith kv.1 prefix = true ∧ kv.1 ≠ prefix +:+ "configuration") m.

(** A carrier map with entries of another prefix and a port of text. *)
Definition mixed_carrier_map : gmap string pyval :=
  list_to_map
    [("hive.username", VStr "hue"); ("hive.port", VStr "10009");
     ("hive.configuration.spark.app.name", VStr "app");
     ("hive.configuration.retries", VInt 3);
     ("hive.configuration", VStr "ignored"); ("mysql.host", VStr "db")].

(** The record of that carrier map under the prefix [hive.]. *)
Definition mixed_config : HiveConfig :=
  {| host := "127.0.0.1"; port := 10009; database := None;
     username := "hue"; password := ""; auth := None;
     configuration := <["spark.app.name" := VStr "app"]> (<["retries" := VInt 3]> ∅);
     timeout_seconds := 30 |}.

(** [value is not None and not isinstance(value, bool)], the test of the
    third loop of [_extract_table_names]. *)
Definition plain_value (v : pyval) : bool :=
  negb (is_none v) && negb (isinstance_bool v).

(** A frame without a string that is not blank. *)
Definition counts_frame : DataFrame :=
  {| nrows := 2;
     frame := [("flag", [VBool true; VNone]); ("n", [VNone; VInt 7]);
               ("note", [VStr " "; VStr ""])] |}.

(** The names that a loop returns are cells of one column, in the order
    of the rows. *)
Definition from_one_column (df : DataFrame) (names : list string) : Prop :=
  ∃ c vs, (c, vs) ∈ frame df ∧ names `sublist_of` (py_str <$> vs).




(** A frame of [DESCRIBE] with a comment that is [NULL] and a partition
    section. *)
Definition null_comment_frame : DataFrame :=
  {| nrows := 3;
     frame := [("col_name", [VStr "id"; VStr ""; VStr "dt"]);
               ("data_type", [VStr "int"; VNone; VStr "string"]);
               ("comment", [VNone; VNone; VNone])] |}.

(** ** connector.py: the other methods *)

(** [sep.join(parts)] *)
Fixpoint join (sep : string) (parts : list string) : string :=
  match parts with
  | [] => ""
  | [part] => part
  | part :: parts' => part +:+ sep +:+ join sep parts'
  end.

Definition newline : string := String (ascii_of_N 10) "".

(** [df.iloc[:, 0].tolist()]: the cells of the first column, by position. *)
Definition iloc0 (df : DataFrame) : list pyval :=
  match frame df with
  | [] => []
  | c :: _ => c.2
  end.

(** [HiveConnector._sys_databases]: the empty set. *)
Definition _sys_databases : gset string := ∅.

(** [config.database or "default"], the [database_name] that [__init__]
    gives the connector. *)
Definition initial_database_name (config : HiveConfig) : string :=
  match database config with
  | Some d => str_or d "default"
  | None => "default"
  end.

(** An entry of [get_tables_with_ddl] and of [get_views_with_ddl]. *)
Record ddl_entry := {
  ddl_identifier : string;
  ddl_catalog_name : string;
  ddl_schema_name : string;
  ddl_database_name : string;
  ddl_table_name : string;
  ddl_table_type : string;
  ddl_definition : string;
}.

(** An entry of [get_sample_rows]. *)
Record sample_entry := {
  sample_identifier : string;
  sample_catalog_name : string;
  sample_database_name : string;
  sample_schema_name : string;
  sample_table_name : string;
  sample_table_type : string;
  sample_rows : string;
}.

Section ConnectorMethods.

(** The outside as before, and what the base class and pandas give
    besides: [_execute_query], whose result is not used here,
    [identifier] and [_reset_filter_tables], taken to be functions of
    their arguments, and [DataFrame.to_csv]. *)
Variable World : Type.
Variable connect_world : World → result unit * World.
Variable execute_world : string → World → result DataFrame * World.
Variable query_world : string → World → result unit * World.
Variable identifier : string → string → string.
Variable reset_filter_tables :
  option (list string) → string → string → string → list string.
Variable to_csv : DataFrame → string.

Notation "'run' x <- m ; k" := (bind World m (fun x => k))
  (at level 10, x name, m at level 100, k at level 200, only parsing).

(** [self._execute_query(sql)]; the trace keeps the connections and the
    statements of [_execute_pandas] only. *)
Definition _execute_query (sql : string) : method World unit :=
  λ self,
    let (r, w) := query_world sql (world self) in
    (r, {| database_name := database_name self; world := w; trace := trace self |}).

(** [self.database_name = database_name] *)
Definition set_database_name (database_name : string) : method World unit :=
  λ self,
    (Ok (), {| database_name := database_name; world := world self;
               trace := trace self |}).

Definition get_databases (catalog_name : string) (include_sys : bool)
    : method World (list string) :=
  run _ <- connect World connect_world;
  run result <- _execute_pandas World execute_world "SHOW DATABASES";
  if empty result then ret World []
  else
    match column_at result 0 with
    | Some col_name =>
        run values <- lift World (tolist result col_name);
        let databases := py_str <$> values in
        if include_sys then ret World databases
        else
          let sys_dbs : gset string := set_map lower _sys_databases in
          if bool_decide (sys_dbs = ∅) then ret World databases
          else ret World (filter (λ db, lower db ∉ sys_dbs) databases)
    | None => lift World (Raise KeyError)
    end.

Definition _show_create (full : string) : method World string :=
  run df <- _execute_pandas World execute_world ("SHOW CREATE TABLE " +:+ full);
  if empty df then ret World ("-- DDL not available for " +:+ full)
  else ret World (join newline (py_str <$> iloc0 df)).

(** The loop of [get_tables_with_ddl], on the names still to visit and the
    list [result] built so far. *)
Fixpoint tables_ddl_loop (database_name : string) (filter_tables : list string)
    (names : list string) (result : list ddl_entry) : method World (list ddl_entry) :=
  match names with
  | [] => ret World result
  | table_name :: names' =>
      run full <- full_name World "" database_name "" table_name;
      if nonempty_list filter_tables && negb (bool_decide (full ∈ filter_tables))
      then tables_ddl_loop database_name filter_tables names' result
      else
        run ddl <- _show_create full;
        tables_ddl_loop database_name filter_tables names'
          (result ++ [{| ddl_identifier := identifier database_name table_name;
                         ddl_catalog_name := ""; ddl_schema_name := "";
                         ddl_database_name := database_name;
                         ddl_table_name := table_name; ddl_table_type := "table";
                         ddl_definition := ddl |}])
  end.

Definition get_tables_with_ddl (catalog_name database_name schema_name : string)
    (tables : option (list string)) : method World (list ddl_entry) :=
  run _ <- connect World connect_world;
  run self_database_name <- get_database_name World;
  let database_name := str_or database_name self_database_name in
  let filter_tables :=
    reset_filter_tables tables catalog_name database_name schema_name in
  run names <- get_tables World connect_world execute_world "" database_name "";
  tables_ddl_loop database_name filter_tables names [].

(** The loop of [get_views_with_ddl]. *)
Fixpoint views_ddl_loop (database_name : string) (names : list string)
    (result : list ddl_entry) : method World (list ddl_entry) :=
  match names with
  | [] => ret World result
  | view_name :: names' =>
      run full <- full_name World "" database_name "" view_name;
      run ddl <- _show_create full;
      views_ddl_loop database_name names'
        (result ++ [{| ddl_identifier := identifier database_name view_name;
                       ddl_catalog_name := ""; ddl_schema_name := "";
                       ddl_database_name := database_name;
                       ddl_table_name := view_name; ddl_table_type := "view";
                       ddl_definition := ddl |}])
  end.

Definition get_views_with_ddl (catalog_name database_name schema_name : string)
    : method World (list ddl_entry) :=
  run _ <- connect World connect_world;
  run self_database_name <- get_database_name World;
  let database_name := str_or database_name self_database_name in
  run names <- get_views World connect_world execute_world "" database_name "";
  views_ddl_loop database_name names [].

(** The statement of [get_sample_rows] for one table; the f-string
    formats [top_n] as [str] does. *)
Definition sample_sql (full : string) (top_n : Z) : result string :=
  do limit <- int_str top_n;
  Ok ("SELECT * FROM " +:+ full +:+ " LIMIT " +:+ limit).

(** The loop of [get_sample_rows]. *)
Fixpoint sample_loop (database_name table_type : string) (top_n : Z)
    (names : list string) (result : list sample_entry)
    : method World (list sample_entry) :=
  match names with
  | [] => ret World result
  | table_name :: names' =>
      run full <- full_name World "" database_name "" table_name;
      run query <- lift World (sample_sql full top_n);
      run df <- _execute_pandas World execute_world query;
      if negb (empty df)
      then
        sample_loop database_name table_type top_n names'
          (result ++ [{| sample_identifier := identifier database_name table_name;
                         sample_catalog_name := "";
                         sample_database_name := database_name;
                         sample_schema_name := "";
                         sample_table_name := table_name;
                         sample_table_type := table_type;
                         sample_rows := to_csv df |}])
      else sample_loop database_name table_type top_n names' result
  end.

(** [tables or self.get_tables(database_name=database_name)]: the tables
    are listed only for no list, or an empty one. *)
Definition get_sample_rows (tables : option (list string)) (top_n : Z)
    (catalog_name database_name schema_name table_type : string)
    : method World (list sample_entry) :=
  run _ <- connect World connect_world;
  run self_database_name <- get_database_name World;
  let database_name := str_or database_name self_database_name in
  run tables_to_scan <-
    match tables with
    | Some (t :: ts) => ret World (t :: ts)
    | _ => get_tables World connect_world execute_world "" database_name ""
    end;
  sample_loop database_name table_type top_n tables_to_scan [].

Definition do_switch_context (catalog_name database_name schema_name : string)
    : method World unit :=
  if nonempty database_name
  then
    run _ <- _execute_query ("USE " +:+ _quote_identifier database_name);
    set_database_name database_name
  else ret World ().

End ConnectorMethods.

(** A server that answers every statement with one column of two names. *)
Definition listing_execute (sql : string) (w : unit) : result DataFrame * unit :=
  (Ok {| nrows := 2; frame := [("name", [VStr "a"; VStr "b"])] |}, w).

Definition accepting_query (sql : string) (w : unit) : result unit * unit := (Ok (), w).

(** A method that leaves [self.database_name] as it is, whatever its
    outcome. *)
Definition keeps_database_name {World A} (m : method World A) : Prop :=
  ∀ self, database_name (m self).2 = database_name self.

(** The text of [full_name] for a database and a table. *)
Definition qualified_name (database_name table_name : string) : string :=
  if nonempty database_name
  then _quote_identifier database_name +:+ "." +:+ _quote_identifier table_name
  else _quote_identifier table_name.

(** What [get_views_with_ddl] says of a view of the database [db], beside
    its definition. *)
Definition view_entry (identifier : string → string → string) (db : string)
    (e : ddl_entry) : Prop :=
  ddl_table_type e = "view" ∧ ddl_catalog_name e = "" ∧ ddl_schema_name e = ""
  ∧ ddl_database_name e = db
  ∧ ddl_identifier e = identifier db (ddl_table_name e).

(** The same of a table, for [get_tables_with_ddl]. *)
Definition table_entry (identifier : string → string → string) (db : string)
    (e : ddl_entry) : Prop :=
  ddl_table_type e = "table" ∧ ddl_catalog_name e = "" ∧ ddl_schema_name e = ""
  ∧ ddl_database_name e = db
  ∧ ddl_identifier e = identifier db (ddl_table_name e).

(** An [identifier] for the examples: database and table with a dot. *)
Definition dotted (database_name table_name : string) : string :=
  database_name +:+ "." +:+ table_name.

(** The test of the loop of [get_tables_with_ddl]: a table is kept when
    there is no filter, or when its full name is in the filter. *)
Definition kept (filter_tables : list string) (db table_name : string) : bool :=
  negb (nonempty_list filter_tables
        && negb (bool_decide (qualified_name db table_name ∈ filter_tables))).

(** Statements handed to the server one after the other, up to the first
    that raises: the statements handed over (the one that raised
    included), the frames that came back, the exception if there is one,
    and the outside after. *)
Fixpoint executed_until_raise {World : Type}
    (execute_world : string → World → result DataFrame * World)
    (sqls : list string) (w : World)
    : list string * list DataFrame * option pyexn * World :=
  match sqls with
  | [] => ([], [], None, w)
  | sql :: sqls' =>
      match execute_world sql w with
      | (inl e, w') => ([sql], [], Some e, w')
      | (inr df, w') =>
          let '(ran, frames, exc, w'') := executed_until_raise execute_world sqls' w' in
          (sql :: ran, df :: frames, exc, w'')
      end
  end.

(** The statement that samples a table of the database [db]. *)
Definition select_statement (db : string) (top_n : Z) (table_name : string) : string :=
  "SELECT * FROM " +:+ qualified_name db table_name +:+ " LIMIT " +:+ str_of_int top_n.

(** The entry of [get_sample_rows] for a table and the frame of its
    rows: none for an empty frame. *)
Definition sample_of (identifier : string → string → string)
    (to_csv : DataFrame → string) (db table_type : string)
    (sampled : string * DataFrame) : option sample_entry :=
  if empty sampled.2 then None
  else Some {| sample_identifier := identifier db sampled.1;
               sample_catalog_name := "";
               sample_database_name := db;
               sample_schema_name := "";
               sample_table_name := sampled.1;
               sample_table_type := table_type;
               sample_rows := to_csv sampled.2 |}.

(** A server for the examples that fails one statement and answers every
    other one with the names [a] and [b]. *)
Definition failing_on (bad : string) (sql : string) (w : unit)
    : result DataFrame * unit :=
  if decide (sql = bad) then (Raise (DriverError "statement failed"), w)
  else listing_execute sql w.

(** A [to_csv] for the examples: the number of rows. *)
Definition rows_csv (df : DataFrame) : string := str_of_int (Z.of_nat (nrows df)).

(** A filter for the examples: the tables asked for, with their full
    names. *)
Definition qualified_filter (tables : option (list string))
    (catalog_name database_name schema_name : string) : list string :=
  qualified_name database_name <$> default [] tables.

(** A record whose database is the empty string. *)
Definition empty_database_config : HiveConfig :=
  {| host := "127.0.0.1"; port := 10000; database := Some EmptyString;
     username := "hive"; password := EmptyString; auth := None;
     configuration := ∅; timeout_seconds := 30 |}.

(** * Properties *)

(** ** Strings *)

Lemma str_app_empty_r (s : string) : s +:+ "" = s.
Proof. induction s as [|c s IH]; [done|]. unfold String.append; fold String.append. by rewrite IH. Qed.

Lemma str_app_cons (c : ascii) (s t : string) : String c s +:+ t = String c (s +:+ t).
Proof. done. Qed.

Lemma list_ascii_app (a b : string) :
  list_ascii_of_string (a +:+ b) = list_ascii_of_string a ++ list_ascii_of_string b.
Proof. induction a as [|c a IH]; [done|]. rewrite str_app_cons. simpl. by rewrite IH. Qed.

Lemma length_list_ascii (s : string) :
  length (list_ascii_of_string s) = String.length s.
Proof. induction s as [|c s IH]; [done|]. simpl. by rewrite IH. Qed.

Lemma startswith_app (p s : string) : startswith (p +:+ s) p = true.
Proof.
  induction p as [|c p IH]; [by destruct s|].
  rewrite str_app_cons. simpl. by rewrite decide_True.
Qed.

Lemma slice_from_app (p s : string) : slice_from (String.length p) (p +:+ s) = s.
Proof. induction p as [|c p IH]; [by destruct s|]. by rewrite str_app_cons. Qed.

Lemma startswith_slice (s p : string) :
  startswith s p = true → s = p +:+ slice_from (String.length p) s.
Proof.
  revert s. induction p as [|c p IH]; intros s H.
  - by destruct s.
  - destruct s as [|b s]; [done|]. simpl in H. case_decide; [|done].
    subst. rewrite str_app_cons. simpl. f_equal. by apply IH.
Qed.

Lemma startswith_iff (s p : string) :
  startswith s p = true ↔ ∃ t, s = p +:+ t.
Proof.
  split.
  - intros H. eexists. by apply startswith_slice.
  - intros [t ->]. apply startswith_app.
Qed.

Lemma not_startswith_app (s p t : string) : startswith s p = false → s ≠ p +:+ t.
Proof. intros H ->. by rewrite startswith_app in H. Qed.

(** ** The first loop *)

Lemma lookup_strip_prefix (m : gmap string pyval) (prefix k : string) :
  map_fold (strip_prefix prefix) ∅ m !! k = m !! (prefix +:+ k).
Proof.
  revert k.
  apply (map_fold_weak_ind (λ r m, ∀ k, r !! k = m !! (prefix +:+ k))).
  - intros k. by rewrite !lookup_empty.
  - intros key v m' r Hfresh IH k. unfold strip_prefix.
    destruct (startswith key prefix) eqn:Hp.
    + apply startswith_slice in Hp.
      destruct (decide (k = slice_from (String.length prefix) key)) as [->|Hne].
      * by rewrite <- Hp, !lookup_insert_eq.
      * rewrite lookup_insert_ne by done. rewrite lookup_insert_ne; [apply IH|].
        intros ->. by rewrite slice_from_app in Hne.
    + rewrite lookup_insert_ne; [apply IH|]. by apply not_startswith_app.
Qed.

(** ** The second loop *)

Lemma split_entry_spec (m : gmap string pyval) :
  split_spec (map_fold split_entry (Ok (∅, ∅)) m) m.
Proof.
  apply (map_fold_weak_ind split_spec).
  - split; intros k; rewrite !lookup_empty; [done|]. by destruct (startswith _ _).
  - intros key x m' r Hfresh IH. destruct r as [e|[cp bp]]; simpl in *.
    + destruct IH as (k & v & Hk & Hs & Hv). exists k, v.
      split_and!; [|done..]. rewrite lookup_insert_ne; [done|congruence].
    + destruct IH as [Hcp Hbp].
      destruct (startswith key "configuration.") eqn:Hp; simpl.
      * pose proof (startswith_slice _ _ Hp) as Hkey. simpl String.length in Hkey.
        split; intros k.
        -- destruct (decide (k = slice_from 14 key)) as [->|Hne].
           ++ by rewrite <- Hkey, !lookup_insert_eq.
           ++ rewrite lookup_insert_ne by done.
              rewrite lookup_insert_ne; [apply Hcp|].
              intros ->. pose proof (slice_from_app "configuration." k) as Hs.
              simpl String.length in Hs. congruence.
        -- rewrite Hbp. destruct (startswith k _) eqn:Hk; [done|].
           rewrite lookup_insert_ne; [done|congruence].
      * destruct (base_value key x) as [e|stored] eqn:Hv; simpl.
        -- exists key, x. by rewrite lookup_insert_eq.
        -- split; intros k.
           ++ rewrite lookup_insert_ne; [apply Hcp|]. by apply not_startswith_app.
           ++ destruct (decide (k = key)) as [->|Hne].
              ** by rewrite !lookup_insert_eq, Hp; simpl; rewrite Hv.
              ** rewrite !lookup_insert_ne by done. apply Hbp.
Qed.

(** What [_extract_prefixed_config] returns, entry by entry, and when it
    raises. *)
Lemma extract_spec (m : gmap string pyval) (prefix : string) :
  match _extract_prefixed_config m prefix with
  | inr extracted =>
      (∃ cp, extracted !! "configuration" = Some (Dict cp)
             ∧ ∀ k, cp !! k = m !! (prefix +:+ "configuration." +:+ k))
      ∧ (∀ k, k ≠ "configuration" →
           extracted !! k =
             if startswith k "configuration." then None
             else m !! (prefix +:+ k) ≫= λ v, Scalar <$> to_option (base_value k v))
  | inl e =>
      ∃ k v, m !! (prefix +:+ k) = Some v
             ∧ startswith k "configuration." = false
             ∧ base_value k v = Raise e
  end.
Proof.
  unfold _extract_prefixed_config.
  pose proof (split_entry_spec (map_fold (strip_prefix prefix) ∅ m)) as H.
  destruct (map_fold split_entry _ _) as [e|[cp bp]]; simpl in *.
  - destruct H as (k & v & Hk & Hs & Hv). exists k, v.
    by rewrite <- lookup_strip_prefix.
  - destruct H as [Hcp Hbp]. split.
    + exists cp. split; [by rewrite lookup_insert_eq|].
      intros k. by rewrite Hcp, lookup_strip_prefix.
    + intros k Hk. rewrite lookup_insert_ne by done.
      rewrite lookup_fmap, Hbp. destruct (startswith k _); [done|].
      rewrite lookup_strip_prefix. destruct (m !! _) as [v|]; [|done]. simpl.
      by destruct (base_value k v).
Qed.

(** ** Construction of a record *)

Section PydanticFacts.

Variable lax_int : pyval → option Z.
Variable lax_str : pyval → option string.

Abbreviation v_str := (validate_str lax_str).
Abbreviation v_opt := (validate_optional_str lax_str).
Abbreviation v_int := (validate_int lax_int).
Abbreviation init := (HiveConfig_init lax_int lax_str).
Abbreviation from_map := (from_config_map lax_int lax_str).

Lemma field_inr {A} kw n (validate : pyarg → option A) d x :
  field kw n validate d = inr x ↔
    (∃ a, kw !! n = Some a ∧ validate a = Some x) ∨ (kw !! n = None ∧ d = Some x).
Proof.
  unfold field. destruct (kw !! n) as [a|].
  - destruct (validate a) eqn:Hv; split.
    + intros [= <-]. left. eauto.
    + intros [(b & [= <-] & Hb)|[? _]]; congruence.
    + done.
    + intros [(b & [= <-] & Hb)|[? _]]; congruence.
  - destruct d; split; try done.
    + intros [= <-]. by right.
    + intros [(b & ? & _)|[_ ?]]; congruence.
    + intros [(b & ? & _)|[_ ?]]; congruence.
Qed.

Lemma field_inl {A} kw n (validate : pyarg → option A) d e :
  field kw n validate d = inl e ↔
    (∃ a, kw !! n = Some a ∧ validate a = None ∧ e = InvalidType)
    ∨ (kw !! n = None ∧ d = None ∧ e = Missing).
Proof.
  unfold field. destruct (kw !! n) as [a|].
  - destruct (validate a) eqn:Hv; split.
    + done.
    + intros [(b & [= <-] & Hb & _)|[? _]]; congruence.
    + intros [= <-]. left. eauto.
    + intros [(b & _ & _ & ->)|[? _]]; [done|congruence].
  - destruct d; split; try done.
    + intros [(b & ? & _)|(_ & ? & _)]; congruence.
    + intros [= <-]. by right.
    + intros [(b & ? & _)|(_ & _ & ->)]; [congruence|done].
Qed.

Lemma extra_keys_empty (kw : gmap string pyarg) :
  extra_keys kw = ∅ ↔ ∀ k, is_Some (kw !! k) → declared_type k ≠ None.
Proof.
  unfold extra_keys. split.
  - intros H k Hk Hd. assert (k ∈ (∅ : gset string)) as Hin; [|set_solver].
    rewrite <- H. apply elem_of_filter. split; [done|]. by apply elem_of_dom.
  - intros H. apply set_eq. intros k. rewrite elem_of_filter, elem_of_dom.
    split; [|set_solver]. intros [Hd Hk]. by destruct (H k Hk).
Qed.

(** The two outcomes of the constructor. *)
Lemma init_cases kw :
  match init kw with
  | inr r =>
      field kw "host" v_str (Some "127.0.0.1") = inr (host r)
      ∧ field kw "port" v_int (Some 10000%Z) = inr (port r)
      ∧ field kw "database" v_opt (Some None) = inr (database r)
      ∧ field kw "username" v_str None = inr (username r)
      ∧ field kw "password" v_str (Some "") = inr (password r)
      ∧ field kw "auth" v_opt (Some None) = inr (auth r)
      ∧ field kw "configuration" validate_dict (Some ∅) = inr (configuration r)
      ∧ field kw "timeout_seconds" v_int (Some 30%Z) = inr (timeout_seconds r)
      ∧ extra_keys kw = ∅
  | inl e =>
      (∃ errors, e = ValidationError errors (extra_keys kw))
      ∧ ((∃ x, field kw "host" v_str (Some "127.0.0.1") = inl x)
         ∨ (∃ x, field kw "port" v_int (Some 10000%Z) = inl x)
         ∨ (∃ x, field kw "database" v_opt (Some None) = inl x)
         ∨ (∃ x, field kw "username" v_str None = inl x)
         ∨ (∃ x, field kw "password" v_str (Some "") = inl x)
         ∨ (∃ x, field kw "auth" v_opt (Some None) = inl x)
         ∨ (∃ x, field kw "configuration" validate_dict (Some ∅) = inl x)
         ∨ (∃ x, field kw "timeout_seconds" v_int (Some 30%Z) = inl x)
         ∨ extra_keys kw ≠ ∅)
  end.
Proof.
  unfold HiveConfig_init.
  destruct (field kw "host" _ _) as [?|?]; [split; eauto 12|].
  destruct (field kw "port" _ _) as [?|?]; [split; eauto 12|].
  destruct (field kw "database" _ _) as [?|?]; [split; eauto 12|].
  destruct (field kw "username" _ _) as [?|?]; [split; eauto 12|].
  destruct (field kw "password" _ _) as [?|?]; [split; eauto 12|].
  destruct (field kw "auth" _ _) as [?|?]; [split; eauto 12|].
  destruct (field kw "configuration" _ _) as [?|?]; [split; eauto 12|].
  destruct (field kw "timeout_seconds" _ _) as [?|?]; [split; eauto 12|].
  case_decide; simpl; [done|]. split; [eauto|]. do 8 right. done.
Qed.

Lemma declared_type_Some k t :
  declared_type k = Some t →
  (k = "host" ∧ t = TStr) ∨ (k = "port" ∧ t = TInt)
  ∨ (k = "database" ∧ t = TOptionalStr) ∨ (k = "username" ∧ t = TStr)
  ∨ (k = "password" ∧ t = TStr) ∨ (k = "auth" ∧ t = TOptionalStr)
  ∨ (k = "configuration" ∧ t = TDict) ∨ (k = "timeout_seconds" ∧ t = TInt).
Proof.
  unfold declared_type. repeat case_decide; intros [= <-]; subst; tauto.
Qed.

Lemma not_coercible_str a : coercible lax_int lax_str TStr a = false ↔ v_str a = None.
Proof.
  simpl. rewrite bool_decide_eq_false, <- eq_None_not_Some. done.
Qed.

Lemma not_coercible_opt a :
  coercible lax_int lax_str TOptionalStr a = false ↔ v_opt a = None.
Proof. simpl. by rewrite bool_decide_eq_false, <- eq_None_not_Some. Qed.

Lemma not_coercible_int a : coercible lax_int lax_str TInt a = false ↔ v_int a = None.
Proof. simpl. by rewrite bool_decide_eq_false, <- eq_None_not_Some. Qed.

Lemma not_coercible_dict a :
  coercible lax_int lax_str TDict a = false ↔ validate_dict a = None.
Proof. simpl. by rewrite bool_decide_eq_false, <- eq_None_not_Some. Qed.

(** C2.  The constructor raises exactly when the user name is missing,
    or a key is not a declared field, or the value of a declared field
    cannot be coerced to the declared type of the field.  What it raises
    is a validation error, with the keys that are not fields, and no
    record comes with it.  A user name that is present and empty is none
    of these reasons. *)
Theorem HiveConfig_init_raises (kw : gmap string pyarg) :
  (raises (init kw) ↔
     kw !! "username" = None
     ∨ (∃ k, is_Some (kw !! k) ∧ declared_type k = None)
     ∨ (∃ k a t, kw !! k = Some a ∧ declared_type k = Some t
                 ∧ coercible lax_int lax_str t a = false))
  ∧ (∀ e, init kw = Raise e →
       ∃ errors, e = ValidationError errors (extra_keys kw)).
Proof.
  pose proof (init_cases kw) as Hc. split.
  - split.
    + intros [e He]. rewrite He in Hc. destruct Hc as [_ Hc].
      destruct Hc as [[x H]|[[x H]|[[x H]|[[x H]|[[x H]|[[x H]|[[x H]|[[x H]|H]]]]]]]];
        try (apply field_inl in H as [(a & Ha & Hv & _)|(_ & Hd & _)];
             [|done || tauto]; right; right).
      * exists "host", a, TStr. by rewrite not_coercible_str.
      * exists "port", a, TInt. by rewrite not_coercible_int.
      * exists "database", a, TOptionalStr. by rewrite not_coercible_opt.
      * apply field_inl in H as [(a & Ha & Hv & _)|(Hn & _)]; [|by left].
        right; right. exists "username", a, TStr. by rewrite not_coercible_str.
      * exists "password", a, TStr. by rewrite not_coercible_str.
      * exists "auth", a, TOptionalStr. by rewrite not_coercible_opt.
      * exists "configuration", a, TDict. by rewrite not_coercible_dict.
      * exists "timeout_seconds", a, TInt. by rewrite not_coercible_int.
      * right; left. rewrite extra_keys_empty in H.
        destruct (decide (set_Exists (λ k, declared_type k = None) (dom kw)))
          as [(k & Hk & Hd)|Hno].
        -- exists k. by rewrite <- elem_of_dom.
        -- destruct H. intros k Hk Hd. apply Hno. exists k.
           by rewrite elem_of_dom.
    + intros H. destruct (init kw) as [e|r]; [by exists e|]. exfalso.
      destruct Hc as (Hh & Hp & Hd & Hu & Hpw & Ha & Hcf & Ht & Hx).
      destruct H as [H|[(k & Hk & Hd')|(k & a & t & Hk & Hd' & Hco)]].
      * apply field_inr in Hu as [(a & Hu & _)|[_ ?]]; congruence.
      * rewrite extra_keys_empty in Hx. by apply (Hx k).
      * apply declared_type_Some in Hd'
          as [[-> ->]|[[-> ->]|[[-> ->]|[[-> ->]|[[-> ->]|[[-> ->]|[[-> ->]|[-> ->]]]]]]]].
        -- apply not_coercible_str in Hco.
           apply field_inr in Hh as [(b & ? & ?)|[? _]]; congruence.
        -- apply not_coercible_int in Hco.
           apply field_inr in Hp as [(b & ? & ?)|[? _]]; congruence.
        -- apply not_coercible_opt in Hco.
           apply field_inr in Hd as [(b & ? & ?)|[? _]]; congruence.
        -- apply not_coercible_str in Hco.
           apply field_inr in Hu as [(b & ? & ?)|[? _]]; congruence.
        -- apply not_coercible_str in Hco.
           apply field_inr in Hpw as [(b & ? & ?)|[? _]]; congruence.
        -- apply not_coercible_opt in Hco.
           apply field_inr in Ha as [(b & ? & ?)|[? _]]; congruence.
        -- apply not_coercible_dict in Hco.
           apply field_inr in Hcf as [(b & ? & ?)|[? _]]; congruence.
        -- apply not_coercible_int in Hco.
           apply field_inr in Ht as [(b & ? & ?)|[? _]]; congruence.
  - intros e He. rewrite He in Hc. by destruct Hc as [Hc _].
Qed.

End PydanticFacts.

(** ** Extraction and construction together *)

Lemma base_value_other (k : string) (v : pyval) :
  k ≠ "port" → base_value k v = Ok v.
Proof.
  intros Hk. unfold base_value. destruct v; try done.
  by rewrite bool_decide_eq_false_2.
Qed.

Lemma int_digits_raise (s : string) (acc : Z) (e : pyexn) :
  int_digits acc s = Raise e → e = ValueError.
Proof.
  revert acc. induction s as [|c s IH]; intros acc; cbn [int_digits]; [done|].
  destruct (decimal_value c); [apply IH|by intros [= <-]].
Qed.

Lemma int_of_str_raise (s : string) (e : pyexn) :
  int_of_str s = Raise e → e = ValueError.
Proof.
  unfold int_of_str. destruct (nonempty s); [|by intros [= <-]].
  destruct (_ <? _)%nat; [by intros [= <-]|apply int_digits_raise].
Qed.

Lemma base_value_raise (k : string) (v : pyval) (e : pyexn) :
  base_value k v = Raise e → e = ValueError.
Proof.
  unfold base_value. destruct v as [| | |s|]; try done.
  destruct (_ && _); [|done].
  destruct (int_of_str s) as [e'|n] eqn:Hn; [|done].
  intros [= <-]. by apply int_of_str_raise in Hn.
Qed.

Lemma lookup_flatten_with (prefix : string) (r : HiveConfig) (pv : pyval) (k : string) :
  flatten_with prefix r pv !! (prefix +:+ k) = local_entries r pv !! k.
Proof. unfold flatten_with. apply (lookup_kmap (String.append prefix)). Qed.

Lemma lookup_local_settings (r : HiveConfig) (pv : pyval) (k : string) :
  local_entries r pv !! ("configuration." +:+ k) = configuration r !! k.
Proof.
  unfold local_entries.
  do 7 (rewrite lookup_insert_ne; [|done]).
  apply (lookup_kmap (String.append "configuration.")).
Qed.

Lemma lookup_local_base (r : HiveConfig) (pv : pyval) (k : string) (v : pyval) :
  startswith k "configuration." = false →
  local_entries r pv !! k = Some v →
  (k = "host" ∧ v = VStr (host r)) ∨ (k = "port" ∧ v = pv)
  ∨ (k = "database" ∧ v = optional_str (database r))
  ∨ (k = "username" ∧ v = VStr (username r))
  ∨ (k = "password" ∧ v = VStr (password r))
  ∨ (k = "auth" ∧ v = optional_str (auth r))
  ∨ (k = "timeout_seconds" ∧ v = VInt (timeout_seconds r)).
Proof.
  intros Hk. unfold local_entries.
  rewrite !lookup_insert_Some. rewrite (lookup_kmap_Some (String.append "configuration.")).
  intros H. destruct H as [[<- <-]|[_ H]]; [tauto|].
  destruct H as [[<- <-]|[_ H]]; [tauto|].
  destruct H as [[<- <-]|[_ H]]; [tauto|].
  destruct H as [[<- <-]|[_ H]]; [tauto|].
  destruct H as [[<- <-]|[_ H]]; [tauto|].
  destruct H as [[<- <-]|[_ H]]; [tauto|].
  destruct H as [[<- <-]|[_ H]]; [tauto|].
  destruct H as (k' & -> & _). by rewrite startswith_app in Hk.
Qed.

Lemma lookup_local_fields (r : HiveConfig) (pv : pyval) :
  local_entries r pv !! "host" = Some (VStr (host r))
  ∧ local_entries r pv !! "port" = Some pv
  ∧ local_entries r pv !! "database" = Some (optional_str (database r))
  ∧ local_entries r pv !! "username" = Some (VStr (username r))
  ∧ local_entries r pv !! "password" = Some (VStr (password r))
  ∧ local_entries r pv !! "auth" = Some (optional_str (auth r))
  ∧ local_entries r pv !! "timeout_seconds" = Some (VInt (timeout_seconds r)).
Proof.
  unfold local_entries.
  repeat split; repeat (rewrite lookup_insert_ne by done); by rewrite lookup_insert_eq.
Qed.

Section RoundTrip.

Variable lax_int : pyval → option Z.
Variable lax_str : pyval → option string.

Abbreviation init := (HiveConfig_init lax_int lax_str).
Abbreviation from_map := (from_config_map lax_int lax_str).

Lemma validate_optional_str_ok (o : option string) :
  validate_optional_str lax_str (Scalar (optional_str o)) = Some o.
Proof. by destruct o. Qed.

(** A record whose port the second loop recovers from [pv] comes back
    from its carrier map. *)
Lemma from_config_map_flatten_with (prefix : string) (r : HiveConfig) (pv : pyval) :
  base_value "port" pv = Ok (VInt (port r)) →
  from_map (flatten_with prefix r pv) prefix = Ok r.
Proof.
  intros Hport. unfold from_config_map.
  pose proof (extract_spec (flatten_with prefix r pv) prefix) as Hx.
  destruct (_extract_prefixed_config _ _) as [e|E]; simpl.
  - exfalso. destruct Hx as (k & v & Hk & Hs & Hv).
    rewrite lookup_flatten_with in Hk.
    apply lookup_local_base in Hk; [|done].
    destruct Hk as [[-> ->]|[[-> ->]|[[-> ->]|[[-> ->]|[[-> ->]|[[-> ->]|[-> ->]]]]]]];
      first [congruence | by rewrite base_value_other in Hv].
  - destruct Hx as [(cp & Hcfg & Hcp) Hbase].
    assert (cp = configuration r) as ->.
    { apply map_eq. intros k.
      by rewrite Hcp, lookup_flatten_with, lookup_local_settings. }
    assert (∀ k v, k ≠ "configuration" → startswith k "configuration." = false →
              local_entries r pv !! k = Some v →
              E !! k = Scalar <$> to_option (base_value k v)) as Hin.
    { intros k v Hne Hs Hk. rewrite Hbase, Hs, lookup_flatten_with, Hk by done. done. }
    assert (extra_keys E = ∅) as Hextra.
    { apply set_eq. intros k. unfold extra_keys.
      rewrite elem_of_filter, elem_of_dom. split; [|set_solver].
      intros [Hd [a Ha]]. destruct (decide (k = "configuration")) as [->|Hne]; [done|].
      rewrite Hbase in Ha by done. destruct (startswith k _) eqn:Hs; [done|].
      rewrite lookup_flatten_with in Ha.
      destruct (local_entries r pv !! k) as [v|] eqn:Hk; [|done].
      apply lookup_local_base in Hk; [|done].
      destruct Hk as [[-> _]|[[-> _]|[[-> _]|[[-> _]|[[-> _]|[[-> _]|[-> _]]]]]]];
        by vm_compute in Hd. }
    destruct (lookup_local_fields r pv) as (Lh & Lp & Ld & Lu & Lpw & La & Lt).
    assert (field E "host" (validate_str lax_str) (Some "127.0.0.1") = inr (host r)) as Fh.
    { unfold field. by rewrite (Hin "host" _ ltac:(done) eq_refl Lh). }
    assert (field E "port" (validate_int lax_int) (Some 10000%Z) = inr (port r)) as Fp.
    { unfold field. by rewrite (Hin "port" _ ltac:(done) eq_refl Lp), Hport. }
    assert (field E "database" (validate_optional_str lax_str) (Some None)
            = inr (database r)) as Fd.
    { unfold field. rewrite (Hin "database" _ ltac:(done) eq_refl Ld).
      rewrite base_value_other by done. by destruct (database r). }
    assert (field E "username" (validate_str lax_str) None = inr (username r)) as Fu.
    { unfold field. by rewrite (Hin "username" _ ltac:(done) eq_refl Lu). }
    assert (field E "password" (validate_str lax_str) (Some "") = inr (password r)) as Fpw.
    { unfold field. by rewrite (Hin "password" _ ltac:(done) eq_refl Lpw). }
    assert (field E "auth" (validate_optional_str lax_str) (Some None)
            = inr (auth r)) as Fa.
    { unfold field. rewrite (Hin "auth" _ ltac:(done) eq_refl La).
      rewrite base_value_other by done. by destruct (auth r). }
    assert (field E "configuration" validate_dict (Some ∅)
            = inr (configuration r)) as Fc.
    { unfold field. by rewrite Hcfg. }
    assert (field E "timeout_seconds" (validate_int lax_int) (Some 30%Z)
            = inr (timeout_seconds r)) as Ft.
    { unfold field. by rewrite (Hin "timeout_seconds" _ ltac:(done) eq_refl Lt). }
    unfold HiveConfig_init.
    rewrite Fh, Fp, Fd, Fu, Fpw, Fa, Fc, Ft, Hextra. simpl.
    by destruct r.
Qed.

End RoundTrip.

(** ** Decimal text *)

Lemma is_decimal_isdigit (c : ascii) : is_decimal c = true → char_isdigit c = true.
Proof. unfold char_isdigit. by intros ->. Qed.

Lemma decimal_isdigit (s : string) : decimal s = true → isdigit s = true.
Proof.
  unfold decimal, isdigit. destruct (nonempty s); [simpl|done].
  induction s as [|c s IH]; [done|]. simpl.
  intros [Hc Hs]%andb_true_iff. by rewrite is_decimal_isdigit, IH.
Qed.

Lemma int_digits_decimal (s : string) (acc : Z) :
  str_all is_decimal s = true → ∃ n, int_digits acc s = Ok n.
Proof.
  revert acc. induction s as [|c s IH]; intros acc; simpl; [eauto|].
  intros [Hc Hs]%andb_true_iff. unfold decimal_value. rewrite Hc. by apply IH.
Qed.

Lemma int_digits_decimal_number (s : string) :
  decimal s = true → int_digits 0 s = Ok (decimal_number s).
Proof.
  unfold decimal, decimal_number. intros [_ Hs]%andb_true_iff. revert Hs.
  generalize 0%Z. induction s as [|c s IH]; intros acc Hs; [done|].
  cbn [str_all] in Hs. apply andb_true_iff in Hs as [Hc Hs].
  cbn [int_digits list_ascii_of_string foldl]. unfold decimal_value. rewrite Hc.
  by apply IH.
Qed.

Lemma int_of_str_decimal (s : string) :
  decimal s = true → String.length s ≤ max_str_digits → ∃ n, int_of_str s = Ok n.
Proof.
  unfold decimal, int_of_str. destruct (nonempty s); [|done].
  rewrite andb_true_l. intros Hs Hlen.
  destruct (Nat.ltb_spec max_str_digits (String.length s)); [lia|].
  by apply int_digits_decimal.
Qed.

Lemma int_of_str_long (s : string) :
  max_str_digits < String.length s → int_of_str s = Raise ValueError.
Proof.
  intros Hlen. unfold int_of_str. destruct (nonempty s); [|done].
  by destruct (Nat.ltb_spec max_str_digits (String.length s)); [|lia].
Qed.

Lemma int_digits_Ok (s : string) (acc n : Z) :
  int_digits acc s = Ok n → str_all is_decimal s = true.
Proof.
  revert acc. induction s as [|c s IH]; intros acc; simpl; [done|].
  unfold decimal_value. destruct (is_decimal c); [apply IH|done].
Qed.

Lemma int_of_str_Ok (s : string) (n : Z) :
  int_of_str s = Ok n →
  decimal s = true ∧ String.length s ≤ max_str_digits ∧ int_digits 0 s = Ok n.
Proof.
  unfold decimal, int_of_str. destruct (nonempty s); [|done].
  rewrite andb_true_l.
  destruct (Nat.ltb_spec max_str_digits (String.length s)) as [Hlen|Hlen]; [done|].
  intros Hd. split_and!; [by eapply int_digits_Ok|lia|done].
Qed.

Lemma int_of_str_within (s : string) (n : Z) :
  decimal s = true → String.length s ≤ max_str_digits → int_digits 0 s = Ok n →
  int_of_str s = Ok n.
Proof.
  unfold decimal, int_of_str. destruct (nonempty s); [|done].
  intros _ Hlen Hn.
  by destruct (Nat.ltb_spec max_str_digits (String.length s)); [lia|].
Qed.

Lemma base_value_port_digits (s : string) (n : Z) :
  int_of_str s = Ok n → base_value "port" (VStr s) = Ok (VInt n).
Proof.
  intros Hn. unfold base_value.
  rewrite (decimal_isdigit s) by (by eapply int_of_str_Ok).
  rewrite bool_decide_eq_true_2 by done. cbn [andb]. by rewrite Hn.
Qed.

(** The value of a numeral of the Standard Library, read digit by digit. *)
Lemma of_uint_acc_value (d : Decimal.uint) (p : positive) :
  Z.pos (Pos.of_uint_acc d p)
  = (Z.pos p * 10 ^ Z.of_nat (Decimal.nb_digits d) + Z.of_N (Pos.of_uint d))%Z.
Proof.
  revert p. induction d as [|d IH|d IH|d IH|d IH|d IH|d IH|d IH|d IH|d IH|d IH];
    intros p; [simpl; lia|..];
    cbn [Pos.of_uint_acc Pos.of_uint Decimal.nb_digits];
    rewrite Nat2Z.inj_succ, Z.pow_succ_r by lia;
    rewrite ?N2Z.inj_pos, !IH; lia.
Qed.

Lemma decimal_value_digit :
  decimal_value "0" = Some 0%Z ∧ decimal_value "1" = Some 1%Z
  ∧ decimal_value "2" = Some 2%Z ∧ decimal_value "3" = Some 3%Z
  ∧ decimal_value "4" = Some 4%Z ∧ decimal_value "5" = Some 5%Z
  ∧ decimal_value "6" = Some 6%Z ∧ decimal_value "7" = Some 7%Z
  ∧ decimal_value "8" = Some 8%Z ∧ decimal_value "9" = Some 9%Z.
Proof. by repeat split. Qed.

Lemma int_digits_string_of_uint (d : Decimal.uint) (acc : Z) :
  int_digits acc (NilEmpty.string_of_uint d)
  = Ok (acc * 10 ^ Z.of_nat (Decimal.nb_digits d) + Z.of_N (Pos.of_uint d))%Z.
Proof.
  destruct decimal_value_digit as (D0 & D1 & D2 & D3 & D4 & D5 & D6 & D7 & D8 & D9).
  revert acc. induction d as [|d IH|d IH|d IH|d IH|d IH|d IH|d IH|d IH|d IH|d IH];
    intros acc; [simpl; f_equal; lia|..];
    cbn [NilEmpty.string_of_uint int_digits Decimal.nb_digits Pos.of_uint];
    rewrite ?D0, ?D1, ?D2, ?D3, ?D4, ?D5, ?D6, ?D7, ?D8, ?D9;
    rewrite IH, Nat2Z.inj_succ, Z.pow_succ_r by lia;
    rewrite ?N2Z.inj_pos, ?of_uint_acc_value; f_equal; lia.
Qed.

Lemma nonempty_string_of_uint (d : Decimal.uint) :
  d ≠ Decimal.Nil → nonempty (NilEmpty.string_of_uint d) = true.
Proof. by destruct d. Qed.

Lemma string_of_uint_nonnil (d : Decimal.uint) :
  d ≠ Decimal.Nil → NilZero.string_of_uint d = NilEmpty.string_of_uint d.
Proof. by destruct d. Qed.

(** The digits of the text of an integer that is not negative denote
    it. *)
Lemma int_digits_str_of_int (z : Z) :
  (0 ≤ z)%Z →
  nonempty (str_of_int z) = true ∧ int_digits 0 (str_of_int z) = Ok z.
Proof.
  intros Hz. unfold str_of_int.
  destruct z as [|p|p]; [done| |lia].
  pose proof (DecimalPos.Unsigned.to_uint_nonnil p) as Hnil.
  cbn [Z.to_int NilZero.string_of_int].
  rewrite string_of_uint_nonnil, nonempty_string_of_uint by done.
  rewrite int_digits_string_of_uint, DecimalPos.Unsigned.of_to.
  split; [done|]. f_equal.
Qed.

(** [int(str(z)) == z] for an integer that is not negative, within the
    limit of digits. *)
Lemma int_of_str_str_of_int (z : Z) :
  (0 ≤ z)%Z → exceeds_max_str_digits z = false → int_of_str (str_of_int z) = Ok z.
Proof.
  intros Hz Hlim. destruct (int_digits_str_of_int z Hz) as [Hne Hd].
  unfold exceeds_max_str_digits in Hlim. rewrite Z.abs_eq in Hlim by done.
  unfold int_of_str. by rewrite Hne, Hlim.
Qed.

(** ** When the extraction raises *)

Lemma base_value_Raise_iff (k : string) (v : pyval) (e : pyexn) :
  base_value k v = Raise e ↔
    e = ValueError ∧ k = "port"
    ∧ ∃ s, v = VStr s ∧ isdigit s = true
           ∧ (decimal s = false ∨ max_str_digits < String.length s).
Proof.
  split.
  - intros H. pose proof (base_value_raise k v e H) as ->. split; [done|].
    unfold base_value in H. destruct v as [| | |s|]; try done.
    destruct (bool_decide (k = "port")) eqn:Hk; [|done].
    destruct (isdigit s) eqn:Hd; [|done]. cbn [andb] in H.
    apply bool_decide_eq_true in Hk. split; [done|]. exists s. split_and!; [done..|].
    destruct (decimal s) eqn:Hdec; [|by left]. right.
    destruct (decide (String.length s ≤ max_str_digits)) as [Hlen|Hlen]; [|lia].
    destruct (int_of_str_decimal s Hdec Hlen) as [n Hn]. by rewrite Hn in H.
  - intros (-> & -> & s & -> & Hd & Hbad). unfold base_value.
    rewrite bool_decide_eq_true_2, Hd by done. cbn [andb].
    destruct (int_of_str s) as [e|n] eqn:Hn.
    + by rewrite (int_of_str_raise s e Hn).
    + apply int_of_str_Ok in Hn as (Hdec & Hlen & _).
      destruct Hbad as [Hbad|Hbad]; [congruence|lia].
Qed.

(** When the second loop ends without an exception, every base entry was
    stored. *)
Lemma split_entry_ok (m : gmap string pyval) :
  match map_fold split_entry (Ok (∅, ∅)) m with
  | inr _ =>
      ∀ k v, m !! k = Some v → startswith k "configuration." = false →
             ∃ stored, base_value k v = Ok stored
  | inl _ => True
  end.
Proof.
  apply (map_fold_weak_ind
           (λ (r : result (gmap string pyval * gmap string pyval))
              (m : gmap string pyval),
              match r with
              | inr _ =>
                  ∀ k v, m !! k = Some v → startswith k "configuration." = false →
                         ∃ stored, base_value k v = Ok stored
              | inl _ => True
              end)).
  - intros k v Hk. by rewrite lookup_empty in Hk.
  - intros key x m' r Hfresh IH. destruct r as [e|[cp bp]]; [done|].
    unfold split_entry. cbn [rbind].
    destruct (startswith key "configuration.") eqn:Hp.
    + intros k v Hk Hs. apply lookup_insert_Some in Hk as [[<- <-]|[_ Hk]];
        [congruence|by apply IH].
    + destruct (base_value key x) as [e|stored] eqn:Hv; [done|]. cbn [rbind].
      intros k v Hk Hs. apply lookup_insert_Some in Hk as [[<- <-]|[_ Hk]];
        [by exists stored|by apply IH].
Qed.

Lemma extract_raises_iff (m : gmap string pyval) (prefix : string) (e : pyexn) :
  _extract_prefixed_config m prefix = Raise e ↔
    e = ValueError
    ∧ ∃ s, m !! (prefix +:+ "port") = Some (VStr s)
           ∧ isdigit s = true
           ∧ (decimal s = false ∨ max_str_digits < String.length s).
Proof.
  split.
  - intros H. pose proof (extract_spec m prefix) as Hx. rewrite H in Hx.
    destruct Hx as (k & v & Hk & _ & Hv).
    apply base_value_Raise_iff in Hv as (-> & -> & s & -> & Hd & Hdec).
    split; [done|]. by exists s.
  - intros (-> & s & Hs & Hd & Hdec).
    assert (base_value "port" (VStr s) = Raise ValueError) as Hv.
    { apply base_value_Raise_iff. split_and!; [done..|]. by exists s. }
    unfold _extract_prefixed_config.
    pose proof (split_entry_ok (map_fold (strip_prefix prefix) ∅ m)) as Hok.
    pose proof (split_entry_spec (map_fold (strip_prefix prefix) ∅ m)) as Hsp.
    destruct (map_fold split_entry _ _) as [e|[cp bp]]; cbn [rbind].
    + destruct Hsp as (k & v & _ & _ & Hraise).
      by rewrite (base_value_raise _ _ _ Hraise).
    + exfalso. assert (∃ stored, base_value "port" (VStr s) = Ok stored) as [stored Hst].
      { apply Hok; [|done]. by rewrite lookup_strip_prefix. }
      congruence.
Qed.

(** Two carrier maps with the same entries behind the prefix, the one of
    the bare key [configuration] apart, are extracted alike. *)
Lemma extract_agree (m m' : gmap string pyval) (prefix : string) :
  (∀ k, k ≠ "configuration" → m !! (prefix +:+ k) = m' !! (prefix +:+ k)) →
  _extract_prefixed_config m prefix = _extract_prefixed_config m' prefix.
Proof.
  intros Hagree.
  pose proof (extract_spec m prefix) as H1.
  pose proof (extract_spec m' prefix) as H2.
  destruct (_extract_prefixed_config m prefix) as [e|E] eqn:He;
    destruct (_extract_prefixed_config m' prefix) as [e'|E'] eqn:He'.
  - apply extract_raises_iff in He as [-> _].
    by apply extract_raises_iff in He' as [-> _].
  - apply extract_raises_iff in He as (_ & s & Hs & Hd & Hdec).
    rewrite Hagree in Hs by done.
    assert (_extract_prefixed_config m' prefix = Raise ValueError) as Hr.
    { apply extract_raises_iff. split; [done|]. by exists s. }
    congruence.
  - apply extract_raises_iff in He' as (_ & s & Hs & Hd & Hdec).
    rewrite <- Hagree in Hs by done.
    assert (_extract_prefixed_config m prefix = Raise ValueError) as Hr.
    { apply extract_raises_iff. split; [done|]. by exists s. }
    congruence.
  - f_equal. apply map_eq. intros k.
    destruct H1 as [(cp & Hc & Hcp) Hb]. destruct H2 as [(cp' & Hc' & Hcp') Hb'].
    destruct (decide (k = "configuration")) as [->|Hne].
    + rewrite Hc, Hc'. do 2 f_equal. apply map_eq. intros j.
      rewrite Hcp, Hcp'. apply Hagree.
      intros Heq. assert (String.length ("configuration." +:+ j) = 13) as Hlen
        by (by rewrite Heq).
      by rewrite <- length_list_ascii, list_ascii_app, length_app in Hlen.
    + rewrite Hb, Hb' by done. by rewrite Hagree.
Qed.

(** ** The claims about the configuration *)

Section ConfigClaims.

Variable lax_int : pyval → option Z.
Variable lax_str : pyval → option string.

(** C1.  Round trip: the carrier map that flattens a record [r] under a
    prefix (each base field under [prefix ++ field], each setting under
    [prefix ++ "configuration." ++ key]) is extracted, with that prefix,
    to [r] again; and so it is when the port is given as a string of
    decimal digits that denotes it, provided the string has no more
    digits than the limit of [int()]: a longer string of digits makes the
    extraction raise [ValueError].  For a port that is not negative and
    within the limit, [str(port)] is such a string. *)
Theorem from_config_map_flatten (prefix : string) (r : HiveConfig) :
  from_config_map lax_int lax_str (flatten prefix r) prefix = Ok r
  ∧ (∀ s, decimal s = true → decimal_number s = port r →
       String.length s ≤ max_str_digits →
       from_config_map lax_int lax_str (flatten_with prefix r (VStr s)) prefix = Ok r)
  ∧ (∀ s, decimal s = true → max_str_digits < String.length s →
       from_config_map lax_int lax_str (flatten_with prefix r (VStr s)) prefix
       = Raise ValueError)
  ∧ ((0 ≤ port r)%Z → exceeds_max_str_digits (port r) = false →
       from_config_map lax_int lax_str
         (flatten_with prefix r (VStr (str_of_int (port r)))) prefix = Ok r).
Proof.
  split_and!.
  - by apply from_config_map_flatten_with.
  - intros s Hdec Hs Hlen. apply from_config_map_flatten_with, base_value_port_digits.
    apply int_of_str_within; [done..|]. rewrite <- Hs. by apply int_digits_decimal_number.
  - intros s Hdec Hlen. unfold from_config_map.
    assert (_extract_prefixed_config (flatten_with prefix r (VStr s)) prefix
            = Raise ValueError) as ->; [|done].
    apply extract_raises_iff. split; [done|]. exists s. split_and!.
    + rewrite lookup_flatten_with. by destruct (lookup_local_fields r (VStr s)) as (_ & ? & _).
    + by apply decimal_isdigit.
    + by right.
  - intros Hp Hlim. apply from_config_map_flatten_with, base_value_port_digits.
    by apply int_of_str_str_of_int.
Qed.

(** C3.  An entry of the carrier map whose key is the prefix
    itself is not passed over: its local key is the empty string, which
    is kept as a base key, and the construction of the record fails on
    it, with a validation error that lists the empty key among the keys
    that are not fields (unless a port of undecodable digits has already
    made the extraction fail). *)
Theorem from_config_map_exact_prefix (m : gmap string pyval) (prefix : string)
    (v : pyval) :
  m !! prefix = Some v →
  from_config_map lax_int lax_str m prefix = Raise ValueError
  ∨ ∃ errors extra,
      from_config_map lax_int lax_str m prefix = Raise (ValidationError errors extra)
      ∧ "" ∈ extra.
Proof.
  intros Hm. unfold from_config_map.
  pose proof (extract_spec m prefix) as Hx.
  destruct (_extract_prefixed_config m prefix) as [e|E]; simpl.
  - left. destruct Hx as (k & w & _ & _ & Hw).
    by rewrite (base_value_raise _ _ _ Hw).
  - right. destruct Hx as [_ Hbase].
    assert (E !! "" = Some (Scalar v)) as HE.
    { rewrite Hbase by done. simpl. rewrite str_app_empty_r, Hm. simpl.
      by rewrite base_value_other. }
    assert ("" ∈ extra_keys E) as Hin.
    { apply elem_of_filter. split; [done|]. apply elem_of_dom. by eexists. }
    pose proof (init_cases lax_int lax_str E) as Hc.
    destruct (HiveConfig_init lax_int lax_str E) as [e|r].
    + destruct Hc as [[errors ->] _]. by exists errors, (extra_keys E).
    + destruct Hc as (_ & _ & _ & _ & _ & _ & _ & _ & Hx).
      rewrite Hx in Hin. set_solver.
Qed.

End ConfigClaims.

(** C1, at an instance: the port of the sample record as the string
    [010009]. *)
Lemma from_config_map_flatten_witness :
  from_config_map strict strict
    (flatten_with "old_lackhouse." sample_config (VStr "010009")) "old_lackhouse."
  = Ok sample_config.
Proof.
  apply (proj1 (proj2 (from_config_map_flatten strict strict
                         "old_lackhouse." sample_config)));
    [reflexivity|reflexivity|].
  apply Nat.leb_le. by vm_compute.
Defined.

(** C1, a port of too many digits: the string of 4296 zeros followed by
    [10009] consists of decimal digits and denotes the port of the sample
    record, and the extraction of the carrier map that holds it raises
    [ValueError]. *)
Lemma from_config_map_flatten_long_port :
  decimal long_port = true
  ∧ decimal_number long_port = port sample_config
  ∧ String.length long_port = 4301
  ∧ from_config_map strict strict
      (flatten_with "old_lackhouse." sample_config (VStr long_port)) "old_lackhouse."
    = Raise ValueError.
Proof. split_and!; by vm_compute. Qed.

(** C2, the empty user name: a user name that is present and empty is
    accepted, and the record has the empty user name. *)
Lemma HiveConfig_init_empty_username :
  HiveConfig_init strict strict (<["username" := Scalar (VStr "")]> ∅)
  = Ok {| host := "127.0.0.1"; port := 10000; database := None;
          username := ""; password := ""; auth := None;
          configuration := ∅; timeout_seconds := 30 |}.
Proof. reflexivity. Qed.

(** C3, an entry under the prefix itself: with it the extraction fails
    on the empty key, and without it the record is built. *)
Lemma from_config_map_exact_prefix_counterexample :
  let m : gmap string pyval :=
    <["hive." := VInt 1]> (<["hive.username" := VStr "hue"]> ∅) in
  from_config_map strict strict m "hive." = Raise (ValidationError [] {[ "" ]})
  ∧ from_config_map strict strict (delete "hive." m) "hive."
    = Ok {| host := "127.0.0.1"; port := 10000; database := None;
            username := "hue"; password := ""; auth := None;
            configuration := ∅; timeout_seconds := 30 |}.
Proof. split; reflexivity. Qed.

(** C3, at that carrier map. *)
Lemma from_config_map_exact_prefix_witness :
  from_config_map strict strict
    (<["hive." := VInt 1]> (<["hive.username" := VStr "hue"]> ∅)) "hive."
  = Raise ValueError
  ∨ ∃ errors extra,
      from_config_map strict strict
        (<["hive." := VInt 1]> (<["hive.username" := VStr "hue"]> ∅)) "hive."
      = Raise (ValidationError errors extra)
      ∧ "" ∈ extra.
Proof.
  apply (from_config_map_exact_prefix strict strict _ "hive." (VInt 1)).
  reflexivity.
Defined.

(** ** The claims about the pure helpers of the connector *)

(** [str(v)] returns the text [py_str v], unless [v] is an integer beyond
    the limit of digits. *)
Lemma str_value_cases (v : pyval) :
  str_value v = if unprintable v then Raise ValueError else Ok (py_str v).
Proof. by destruct v as [| |z| |]. Qed.










Lemma list_ascii_replace_backtick (s : string) :
  list_ascii_of_string (replace_char backtick "``" s)
  = concat (doubled <$> list_ascii_of_string s).
Proof.
  induction s as [|c s IH]; [done|].
  cbn [replace_char list_ascii_of_string fmap list_fmap concat]. unfold doubled at 1.
  case_decide as Hc.
  - by rewrite list_ascii_app, IH.
  - cbn [list_ascii_of_string]. by rewrite IH.
Qed.

(** C8.  The quoted identifier is the identifier between two
    backticks, with every backtick of it written twice; the identifier
    of the three characters a, backtick, b becomes the six characters
    backtick, a, backtick, backtick, b, backtick. *)
Theorem quote_identifier_spec (identifier : string) :
  list_ascii_of_string (_quote_identifier identifier)
    = [backtick] ++ concat (doubled <$> list_ascii_of_string identifier) ++ [backtick]
  ∧ _quote_identifier "a`b" = "`a``b`"
  ∧ String.length "a`b" = 3
  ∧ String.length (_quote_identifier "a`b") = 6.
Proof.
  split_and!; [|done..].
  unfold _quote_identifier.
  by rewrite !list_ascii_app, list_ascii_replace_backtick.
Qed.

(** C8, the lengths of the example: the identifier has three
    characters, not five, and its quoted form has six, not seven. *)
Lemma quote_identifier_lengths :
  String.length "a`b" = 3 ∧ String.length (_quote_identifier "a`b") = 6.
Proof. by split. Qed.

(** ** Frames *)

Lemma filter_label_absent (l : list (string * list pyval)) (c : string) :
  c ∉ l.*1 → filter (λ x, x.1 = c) l = [].
Proof.
  induction l as [|[c' vs'] l IH]; intros Hc; [done|].
  rewrite fmap_cons, not_elem_of_cons in Hc. destruct Hc as [Hne Hc].
  rewrite filter_cons_False by (simpl; intros ->; by apply Hne). by apply IH.
Qed.

Lemma filter_label_unique (l : list (string * list pyval)) (c : string)
    (vs : list pyval) :
  NoDup l.*1 → (c, vs) ∈ l → filter (λ x, x.1 = c) l = [(c, vs)].
Proof.
  induction l as [|[c' vs'] l IH]; intros Hnd Hin; [by apply elem_of_nil in Hin|].
  rewrite fmap_cons in Hnd. apply NoDup_cons in Hnd as [Hc' Hnd].
  apply elem_of_cons in Hin as [[= <- <-]|Hin].
  - rewrite filter_cons_True by done. f_equal. by apply filter_label_absent.
  - rewrite filter_cons_False; [by apply IH|].
    simpl. intros ->. apply Hc'. by apply (list_elem_of_fmap_2 fst) in Hin.
Qed.

Lemma tolist_elem (df : DataFrame) (c : string) (vs : list pyval) :
  well_formed df → (c, vs) ∈ frame df → tolist df c = Ok vs.
Proof.
  intros [Hnd _] Hin. unfold tolist, labelled.
  by rewrite (filter_label_unique _ c vs).
Qed.

Lemma cell_elem (df : DataFrame) (c : string) (vs : list pyval) (i : nat) (v : pyval) :
  well_formed df → (c, vs) ∈ frame df → vs !! i = Some v → cell df c i = Ok v.
Proof.
  intros [Hnd _] Hin Hi. unfold cell, labelled.
  rewrite (filter_label_unique _ c vs) by done. simpl. by rewrite Hi.
Qed.

Lemma well_formed_length (df : DataFrame) (c : string) (vs : list pyval) :
  well_formed df → (c, vs) ∈ frame df → length vs = nrows df.
Proof.
  intros [_ Hlen] Hin. rewrite Forall_forall in Hlen. by apply (Hlen (c, vs)).
Qed.

(** ** The dictionary of the lower-cased labels *)

Lemma lookup_column_map_foldl (cols : list string) (m : gmap string string) (n : string) :
  foldl (λ m col, <[lower col := col]> m) m cols !! n
  = match last (filter (λ c, lower c = n) cols) with
    | Some c => Some c
    | None => m !! n
    end.
Proof.
  revert m. induction cols as [|c cols IH]; intros m; [done|].
  simpl. rewrite IH. destruct (decide (lower c = n)) as [Hc|Hc].
  - rewrite filter_cons_True by done. rewrite last_cons.
    destruct (last (filter _ cols)); [done|]. by rewrite <- Hc, lookup_insert_eq.
  - rewrite filter_cons_False by done.
    destruct (last (filter _ cols)); [done|]. by rewrite lookup_insert_ne.
Qed.

Lemma lookup_column_map_None (df : DataFrame) (n : string) :
  (∀ c, c ∈ columns df → lower c ≠ n) → column_map df !! n = None.
Proof.
  intros Hn. unfold column_map. rewrite lookup_column_map_foldl.
  destruct (last _) as [c|] eqn:Hlast; [|done].
  apply last_Some_elem_of, list_elem_of_filter in Hlast as [Hc Hin].
  by destruct (Hn c).
Qed.

Lemma lookup_column_map_last (df : DataFrame) (n c : string) (l1 l2 : list string) :
  columns df = l1 ++ c :: l2 → lower c = n → (∀ c', c' ∈ l2 → lower c' ≠ n) →
  column_map df !! n = Some c.
Proof.
  intros Hcols Hc Hl2. unfold column_map. rewrite lookup_column_map_foldl, Hcols.
  rewrite filter_app, filter_cons_True by done.
  assert (filter (λ c', lower c' = n) l2 = []) as ->.
  { clear Hcols. induction l2 as [|c' l2 IH]; [done|].
    rewrite filter_cons_False by (apply Hl2; by left).
    apply IH. intros c'' Hin. apply Hl2. by right. }
  by rewrite last_snoc.
Qed.

Lemma by_priority_first (df : DataFrame) (cm : gmap string string)
    (before after : list string) (n c : string) :
  (∀ n', n' ∈ before → cm !! n' = None) → cm !! n = Some c →
  by_priority df cm (before ++ n :: after)
  = Some (do values <- tolist df c; Ok (py_str <$> values)).
Proof.
  intros Hb Hn. induction before as [|n' before IH]; simpl.
  - by rewrite Hn.
  - rewrite Hb by left. apply IH. intros n'' Hin. apply Hb. by right.
Qed.

Lemma by_priority_none (df : DataFrame) (cm : gmap string string) (names : list string) :
  (∀ n, n ∈ names → cm !! n = None) → by_priority df cm names = None.
Proof.
  induction names as [|n names IH]; intros Hn; [done|]. simpl.
  rewrite Hn by left. apply IH. intros n' Hin. apply Hn. by right.
Qed.

(** C4.  On a frame that is not empty, let [n] be the first of the names
    [tablename], [tab_name], [table_name], [name] that is the lower-cased
    label of some column, and [c] the column with that lower-cased label
    (the last one, should there be several).  Then the names extracted are
    the cells of [c], each as [str] gives it, in the order of the rows, and
    none is left out.  For the columns database, tableName, isTemporary
    with the one row (default, table_a, False) they are [table_a]. *)
Theorem extract_table_names_priority (df : DataFrame) (n c : string)
    (values : list pyval) (before after : list string)
    (left_cols right_cols : list (string * list pyval)) :
  well_formed df →
  empty df = false →
  priority_names = before ++ n :: after →
  (∀ n' c', n' ∈ before → c' ∈ columns df → lower c' ≠ n') →
  frame df = left_cols ++ (c, values) :: right_cols →
  lower c = n →
  (∀ c', c' ∈ right_cols.*1 → lower c' ≠ n) →
  _extract_table_names df = Ok (py_str <$> values)
  ∧ _extract_table_names show_tables_frame = Ok ["table_a"].
Proof.
  intros Hwf Hne Hprio Hbefore Hframe Hc Hright. split; [|done].
  unfold _extract_table_names. rewrite Hne, Hprio.
  rewrite (by_priority_first df _ before after n c).
  - rewrite (tolist_elem df c values); [done|done|].
    rewrite Hframe. apply elem_of_app. right. left.
  - intros n' Hn'. apply lookup_column_map_None. intros c' Hc'. by apply Hbefore.
  - apply (lookup_column_map_last df n c left_cols.*1 right_cols.*1); [|done..].
    unfold columns. by rewrite Hframe, fmap_app, fmap_cons.
Qed.

(** C4, at the frame of the example. *)
Lemma extract_table_names_priority_witness :
  _extract_table_names show_tables_frame = Ok (py_str <$> [VStr "table_a"])
  ∧ _extract_table_names show_tables_frame = Ok ["table_a"].
Proof.
  apply (extract_table_names_priority show_tables_frame "tablename" "tableName"
           [VStr "table_a"] [] ["tab_name"; "table_name"; "name"]
           [("database", [VStr "default"])] [("isTemporary", [VBool false])]).
  - split.
    + apply (bool_decide_unpack (NoDup (columns show_tables_frame))). by vm_compute.
    + repeat constructor.
  - reflexivity.
  - reflexivity.
  - intros n' c' Hn'. by apply elem_of_nil in Hn'.
  - reflexivity.
  - reflexivity.
  - intros c' Hc'. apply list_elem_of_singleton in Hc' as ->. by vm_compute.
Defined.

Lemma filter_nonblank_strings (values : list pyval) :
  py_str <$> List.filter nonblank_str values = nonblank_strings values.
Proof.
  induction values as [|v values IH]; [done|].
  unfold nonblank_strings in *. cbn [List.filter omap list_omap].
  destruct v as [| | |s|]; cbn [nonblank_str]; try done.
  destruct (nonempty (strip s)); [|done].
  rewrite fmap_cons. by f_equal.
Qed.

Lemma filter_nonblank_nil (values : list pyval) :
  (∀ v, v ∈ values → nonblank_str v = false) → List.filter nonblank_str values = [].
Proof.
  induction values as [|v values IH]; intros Hv; [done|]. simpl.
  rewrite Hv by left. apply IH. intros v' Hin. apply Hv. by right.
Qed.

Lemma nonblank_isinstance_str (values : list pyval) (v : pyval) :
  v ∈ values → nonblank_str v = true → existsb isinstance_str values = true.
Proof.
  intros Hin Hv. apply existsb_exists. exists v. split.
  - by apply list_elem_of_In.
  - by destruct v.
Qed.

Lemma filter_nonblank_nonempty (values : list pyval) (v : pyval) :
  v ∈ values → nonblank_str v = true →
  nonempty_list (py_str <$> List.filter nonblank_str values) = true.
Proof.
  intros Hin Hv.
  assert (v ∈ List.filter nonblank_str values) as Hf.
  { apply list_elem_of_In, filter_In. split; [by apply list_elem_of_In|done]. }
  destruct (List.filter nonblank_str values); [by apply elem_of_nil in Hf|done].
Qed.

(** The second loop passes over the columns without a string that is not
    blank. *)
Lemma by_strings_skip (df : DataFrame) (skipped : list (string * list pyval))
    (rest : list string) :
  well_formed df →
  (∀ c vs, (c, vs) ∈ skipped → (c, vs) ∈ frame df) →
  (∀ c vs v, (c, vs) ∈ skipped → v ∈ vs → nonblank_str v = false) →
  by_strings df (skipped.*1 ++ rest) = by_strings df rest.
Proof.
  intros Hwf. induction skipped as [|[c vs] skipped IH]; intros Hin Hblank; [done|].
  rewrite fmap_cons. simpl.
  rewrite (tolist_elem df c vs) by (done || apply Hin; by left). simpl.
  rewrite (filter_nonblank_nil vs) by (intros v Hv; apply (Hblank c vs v); [by left|done]).
  simpl. assert (by_strings df (skipped.*1 ++ rest) = by_strings df rest) as ->.
  { apply IH.
    - intros c' vs' H. apply Hin. by right.
    - intros c' vs' v H. apply (Hblank c' vs' v). by right. }
  by destruct (existsb _ _).
Qed.

(** C5.  On a frame none of whose lower-cased labels is one
    of the four names, the column that contributes is the first one with a
    string that is not blank, and the names extracted are the strings of
    that column that are not blank, in the order of the rows; a column
    whose strings are all blank is passed over. *)
Theorem extract_table_names_strings (df : DataFrame) (c : string)
    (values : list pyval) (left_cols right_cols : list (string * list pyval)) :
  well_formed df →
  (∀ n c', n ∈ priority_names → c' ∈ columns df → lower c' ≠ n) →
  frame df = left_cols ++ (c, values) :: right_cols →
  (∀ c' vs v, (c', vs) ∈ left_cols → v ∈ vs → nonblank_str v = false) →
  (∃ v, v ∈ values ∧ nonblank_str v = true) →
  _extract_table_names df = Ok (nonblank_strings values).
Proof.
  intros Hwf Hprio Hframe Hleft (v & Hv & Hnb).
  assert ((c, values) ∈ frame df) as Hc.
  { rewrite Hframe. apply elem_of_app. right. left. }
  unfold _extract_table_names.
  assert (empty df = false) as ->.
  { unfold empty. apply orb_false_iff. split; apply bool_decide_eq_false.
    - rewrite <- (well_formed_length df c values) by done.
      destruct values; [by apply elem_of_nil in Hv|done].
    - rewrite Hframe. by destruct left_cols. }
  rewrite by_priority_none.
  2:{ intros n Hn. apply lookup_column_map_None. intros c' Hc'. by apply Hprio. }
  unfold columns. rewrite Hframe, fmap_app, fmap_cons.
  rewrite (by_strings_skip df left_cols); [|done| |done].
  2:{ intros c' vs H. rewrite Hframe. apply elem_of_app. by left. }
  simpl. rewrite (tolist_elem df c values) by done. simpl.
  rewrite (nonblank_isinstance_str values v), (filter_nonblank_nonempty values v) by done.
  simpl. by rewrite filter_nonblank_strings.
Qed.

(** C5, a first column of blank strings: the first column with a string
    is [a], whose strings are all blank, and the names extracted are those
    of [b], not the empty list. *)
Lemma extract_table_names_blank_first :
  tolist blank_first_frame "a" = Ok [VStr "  "]
  ∧ existsb isinstance_str [VStr "  "] = true
  ∧ nonblank_strings [VStr "  "] = []
  ∧ _extract_table_names blank_first_frame = Ok ["x"].
Proof. by repeat split. Qed.

(** C5, at that frame. *)
Lemma extract_table_names_strings_witness :
  _extract_table_names blank_first_frame = Ok (nonblank_strings [VStr "x"]).
Proof.
  apply (extract_table_names_strings blank_first_frame "b" [VStr "x"]
           [("a", [VStr "  "])] []).
  - split.
    + apply (bool_decide_unpack (NoDup (columns blank_first_frame))). by vm_compute.
    + repeat constructor.
  - intros n c' Hn Hc'.
    unfold columns, priority_names in *. simpl in Hc'.
    repeat (apply elem_of_cons in Hc' as [->|Hc']); [..|by apply elem_of_nil in Hc'];
      repeat (apply elem_of_cons in Hn as [->|Hn]);
      try (by apply elem_of_nil in Hn); by vm_compute.
  - reflexivity.
  - intros c' vs v Hc' Hv. apply list_elem_of_singleton in Hc' as [= -> ->].
    by apply list_elem_of_singleton in Hv as ->.
  - exists (VStr "x"). split; [left|reflexivity].
Defined.

(** ** The rows of the schema *)

Lemma column_at_elem (df : DataFrame) (n : nat) (c : string) :
  column_at df n = Some c → ∃ vs, (c, vs) ∈ frame df.
Proof.
  unfold column_at, columns. intros H.
  apply list_elem_of_lookup_2, list_elem_of_fmap in H as ([c' vs] & -> & Hin).
  by exists vs.
Qed.

Lemma cell_text_ok (df : DataFrame) (col : option string) (i : nat) :
  well_formed df → (∀ c, col = Some c → ∃ vs, (c, vs) ∈ frame df) → i < nrows df →
  ∃ t, cell_text df col i = Ok t.
Proof.
  intros Hwf Hcol Hi. unfold cell_text. destruct col as [c|]; [|by eexists].
  destruct (nonempty c); [|by eexists].
  destruct (Hcol c eq_refl) as [vs Hin].
  destruct (lookup_lt_is_Some_2 vs i) as [v Hv].
  { by rewrite (well_formed_length df c vs). }
  rewrite (cell_elem df c vs i v) by done. by eexists.
Qed.

Lemma describe_loop_spec (df : DataFrame) (col_name : string) (cells : list pyval) :
  well_formed df → (col_name, cells) ∈ frame df →
  ∀ (rest : list pyval) (i : nat) (rows : list column_info),
    drop i cells = rest →
    ∃ more,
      describe_loop df col_name (column_at df 1) (column_at df 2)
        (seq i (length rest)) rows = Ok (rows ++ more)
      ∧ name <$> more = before_marker (name_of_cell <$> rest)
      ∧ cid <$> more = seq i (length more)
      ∧ Forall (row_of_frame df) more.
Proof.
  intros Hwf Hin. induction rest as [|v rest IH]; intros i rows Hdrop.
  { exists []. by rewrite app_nil_r. }
  assert (cells !! i = Some v) as Hi.
  { rewrite <- (Nat.add_0_r i), <- lookup_drop, Hdrop. done. }
  assert (i < nrows df) as Hlt.
  { rewrite <- (well_formed_length df col_name cells) by done.
    by eapply lookup_lt_Some. }
  cbn [length seq describe_loop].
  rewrite (cell_elem df col_name cells i v) by done. cbn [rbind].
  cbn [fmap list_fmap before_marker].
  destruct (ends_columns (name_of_cell v)) eqn:Hend.
  { exists []. by rewrite app_nil_r. }
  destruct (cell_text_ok df (column_at df 1) i Hwf) as [t Ht];
    [intros c; apply column_at_elem|done|].
  destruct (cell_text_ok df (column_at df 2) i Hwf) as [cm Hcm];
    [intros c; apply column_at_elem|done|].
  rewrite Ht, Hcm. cbn [rbind].
  destruct (IH (S i) (rows ++ [{| cid := i; name := name_of_cell v;
                                  type := default "" t; comment := cm;
                                  nullable := true; pk := false;
                                  default_value := None |}]))
    as (more & Hloop & Hnames & Hcids & Hrows).
  { rewrite (drop_S cells v i) in Hdrop by done. by injection Hdrop. }
  eexists (_ :: more). split_and!.
  - by rewrite Hloop, <- app_assoc.
  - by rewrite fmap_cons, Hnames.
  - by rewrite fmap_cons, Hcids.
  - constructor; [|done]. unfold row_of_frame. simpl. by rewrite Ht, Hcm.
Qed.

Lemma name_of_cell_trimmed (v : pyval) : name_of_cell v = trimmed_name v.
Proof. by destruct v. Qed.

Lemma ends_columns_sentinel (n : string) : ends_columns n = sentinel n.
Proof.
  unfold ends_columns. destruct n as [|c n]; [done|].
  cbn [nonempty negb orb startswith sentinel].
  case_decide as Hc.
  - rewrite bool_decide_eq_true_2 by done. by destruct n.
  - rewrite bool_decide_eq_false_2; [done|]. by intros ->.
Qed.

(** The names before the marker are the longest prefix of the names
    without a name that ends the columns. *)
Lemma before_marker_take (names : list string) :
  before_marker names = take (length (before_marker names)) names
  ∧ Forall (λ n, ends_columns n = false) (before_marker names)
  ∧ (∀ n, names !! length (before_marker names) = Some n → ends_columns n = true).
Proof.
  induction names as [|n names (IH1 & IH2 & IH3)]; [done|].
  cbn [before_marker]. destruct (ends_columns n) eqn:Hn.
  - split_and!; [done|done|]. by intros n' [= <-].
  - cbn [length take lookup list_lookup]. split_and!.
    + by rewrite <- IH1.
    + by constructor.
    + done.
Qed.

(** C6.  The rows of the schema are read off the frame in order: their
    names are the trimmed names in the cells of the first column (a cell
    without a value has the empty name) up to, and without, the first
    one that is empty after trimming or begins with a hash; that row and
    all that follow are dropped.  The rows are numbered from 0, and each
    has [nullable] true, [pk] false and no default value.  The frame of
    the example gives the two rows of [id] and [name]; so does a frame
    whose names must be trimmed and whose third name has no value, and a
    blank name in the second row leaves the first row only. *)
Theorem schema_of_frame_spec (df : DataFrame) :
  well_formed df →
  (∃ rows,
     schema_of_frame df = Ok rows
     ∧ name <$> rows = trimmed_name <$> take (length rows) (name_cells df)
     ∧ Forall (λ r, sentinel (name r) = false) rows
     ∧ (∀ v, name_cells df !! length rows = Some v → sentinel (trimmed_name v) = true)
     ∧ cid <$> rows = seq 0 (length rows)
     ∧ Forall (row_of_frame df) rows)
  ∧ schema_of_frame describe_frame
    = Ok [ {| cid := 0; name := "id"; type := "int"; comment := Some "";
              nullable := true; pk := false; default_value := None |};
           {| cid := 1; name := "name"; type := "string"; comment := Some "";
              nullable := true; pk := false; default_value := None |} ]
  ∧ schema_of_frame untrimmed_frame
    = Ok [ {| cid := 0; name := "id"; type := "int"; comment := None;
              nullable := true; pk := false; default_value := None |};
           {| cid := 1; name := "name"; type := "string"; comment := None;
              nullable := true; pk := false; default_value := None |} ]
  ∧ schema_of_frame blank_name_frame
    = Ok [ {| cid := 0; name := "id"; type := "int"; comment := None;
              nullable := true; pk := false; default_value := None |} ].
Proof.
  intros Hwf. split; [|by split_and!].
  assert (∃ rows,
            schema_of_frame df = Ok rows
            ∧ name <$> rows = before_marker (name_of_cell <$> name_cells df)
            ∧ cid <$> rows = seq 0 (length rows)
            ∧ Forall (row_of_frame df) rows) as (rows & Hs & Hnames & Hcid & Hrows).
  { unfold schema_of_frame, name_cells, empty.
    destruct (frame df) as [|[col_name cells] cols] eqn:Hframe.
    { exists []. by rewrite orb_true_r. }
    assert ((col_name, cells) ∈ frame df) as Hin by (rewrite Hframe; left).
    pose proof (well_formed_length df col_name cells Hwf Hin) as Hlen.
    destruct (decide (nrows df = 0)) as [Hz|Hnz].
    { rewrite bool_decide_eq_true_2 by done. exists []. simpl.
      rewrite Hz in Hlen. by destruct cells. }
    rewrite bool_decide_eq_false_2 by done. simpl.
    unfold column_at at 1, columns. rewrite Hframe. simpl.
    destruct (describe_loop_spec df col_name cells Hwf Hin cells 0 [])
      as (rows & Hloop & Hrest); [done|].
    exists rows. by rewrite <- Hlen, Hloop. }
  exists rows. split; [done|].
  destruct (before_marker_take (name_of_cell <$> name_cells df)) as (Ht & Hall & Hnext).
  rewrite <- Hnames in Ht, Hall, Hnext. rewrite length_fmap in Ht, Hnext.
  split_and!; [| | |done|done].
  - rewrite Ht, fmap_take. f_equal. apply list_fmap_ext.
    intros i v _. apply name_of_cell_trimmed.
  - apply Forall_fmap in Hall. eapply Forall_impl; [exact Hall|].
    intros r Hr. cbn in Hr. by rewrite <- ends_columns_sentinel.
  - intros v Hv. rewrite <- name_of_cell_trimmed, <- ends_columns_sentinel.
    apply Hnext. by rewrite list_lookup_fmap, Hv.
Qed.

(** C6, at the frame with names to trim. *)
Lemma schema_of_frame_witness :
  (∃ rows,
     schema_of_frame untrimmed_frame = Ok rows
     ∧ name <$> rows = trimmed_name <$> take (length rows) (name_cells untrimmed_frame)
     ∧ Forall (λ r, sentinel (name r) = false) rows
     ∧ (∀ v, name_cells untrimmed_frame !! length rows = Some v →
          sentinel (trimmed_name v) = true)
     ∧ cid <$> rows = seq 0 (length rows)
     ∧ Forall (row_of_frame untrimmed_frame) rows)
  ∧ schema_of_frame describe_frame
    = Ok [ {| cid := 0; name := "id"; type := "int"; comment := Some "";
              nullable := true; pk := false; default_value := None |};
           {| cid := 1; name := "name"; type := "string"; comment := Some "";
              nullable := true; pk := false; default_value := None |} ]
  ∧ schema_of_frame untrimmed_frame
    = Ok [ {| cid := 0; name := "id"; type := "int"; comment := None;
              nullable := true; pk := false; default_value := None |};
           {| cid := 1; name := "name"; type := "string"; comment := None;
              nullable := true; pk := false; default_value := None |} ]
  ∧ schema_of_frame blank_name_frame
    = Ok [ {| cid := 0; name := "id"; type := "int"; comment := None;
              nullable := true; pk := false; default_value := None |} ].
Proof.
  apply (schema_of_frame_spec untrimmed_frame). split.
  - apply (bool_decide_unpack (NoDup (columns untrimmed_frame))). by vm_compute.
  - repeat constructor.
Defined.

(** ** The claims about the methods *)

Section ConnectorClaims.

Variable World : Type.
Variable connect_world : World → result unit * World.
Variable execute_world : string → World → result DataFrame * World.

(** C9.  With an empty table name [get_schema] returns the empty list
    at once: the connector is as it was before the call, and so is its
    trace, to which neither a connection nor a statement is added.  (With
    any other table name the call connects first: its trace goes on with
    [Connect].) *)
Theorem get_schema_no_table (catalog_name db schema_name : string)
    (self : connector World) :
  get_schema World connect_world execute_world catalog_name db schema_name "" self
  = (Ok [], self)
  ∧ ∀ table_name, nonempty table_name = true →
      ∃ events,
        trace (get_schema World connect_world execute_world
                 catalog_name db schema_name table_name self).2
        = trace self ++ Connect :: events.
Proof.
  split; [reflexivity|].
  intros table_name Hname. unfold get_schema. rewrite Hname. cbn [negb].
  unfold bind at 1. unfold connect.
  destruct (connect_world (world self)) as [[exc|[]] w]; [by exists []|].
  cbv [bind get_database_name full_name ret lift _execute_pandas].
  cbn [world trace database_name].
  destruct (nonempty (str_or (str_or db (database_name self)) (database_name self)));
    cbn beta iota; cbn [world trace database_name];
    match goal with
    | |- context [execute_world ?sql w] =>
        destruct (execute_world sql w) as [[exc|df] w']
    end;
    cbn [snd trace]; rewrite <- app_assoc; by eexists.
Qed.

(** C10.  When the statement of [get_views] raises an exception, after a
    connection that succeeded, [get_views] returns the empty list: the
    exception is caught, and the trace shows the connection and the
    statement.  [get_tables] lets the exception of its statement
    through. *)
Theorem get_views_catches (catalog_name db schema_name : string)
    (self : connector World) (w1 w2 : World) (exc : pyexn) :
  connect_world (world self) = (Ok (), w1) →
  (execute_world (views_sql (str_or db (database_name self))) w1 = (Raise exc, w2) →
   get_views World connect_world execute_world catalog_name db schema_name self
   = (Ok [],
      {| database_name := database_name self; world := w2;
         trace := trace self
                  ++ [Connect; Execute (views_sql (str_or db (database_name self)))] |}))
  ∧ (execute_world (tables_sql (str_or db (database_name self))) w1 = (Raise exc, w2) →
     get_tables World connect_world execute_world catalog_name db schema_name self
     = (Raise exc,
        {| database_name := database_name self; world := w2;
           trace := trace self
                    ++ [Connect; Execute (tables_sql (str_or db (database_name self)))] |})).
Proof.
  intros Hconnect. split; intros Hexec.
  - unfold get_views, bind, try_except, connect, _execute_pandas, get_database_name.
    rewrite Hconnect. simpl. rewrite Hexec. simpl. by rewrite <- app_assoc.
  - unfold get_tables, bind, connect, _execute_pandas, get_database_name.
    rewrite Hconnect. simpl. rewrite Hexec. simpl. by rewrite <- app_assoc.
Qed.

End ConnectorClaims.

(** C10, at a server that fails every statement. *)
Lemma get_views_catches_witness :
  get_views unit accepting_connect failing_execute "" "" "" fresh_connector
  = (Ok [],
     {| database_name := "default"; world := ();
        trace := [Connect; Execute "SHOW VIEWS IN `default`"] |})
  ∧ get_tables unit accepting_connect failing_execute "" "" "" fresh_connector
    = (Raise (DriverError "statement failed"),
       {| database_name := "default"; world := ();
          trace := [Connect; Execute "SHOW TABLES IN `default`"] |}).
Proof.
  destruct (get_views_catches unit accepting_connect failing_execute
              "" "" "" fresh_connector () () (DriverError "statement failed")
              eq_refl) as [Hviews Htables].
  split; [exact (Hviews eq_refl)|exact (Htables eq_refl)].
Defined.

(** ** Examples *)

Example str_of_int_100 : str_of_int 100 = "100".
Proof. reflexivity. Qed.

Example str_of_int_negative : str_of_int (-42) = "-42".
Proof. reflexivity. Qed.

Example strip_both_ends : strip "  a b	 " = "a b".
Proof. reflexivity. Qed.

Example lower_mixed_case : lower "tableName" = "tablename".
Proof. reflexivity. Qed.

Example int_of_str_leading_zero : int_of_str "010009" = Ok 10009%Z.
Proof. reflexivity. Qed.

(** A string of 4301 digits is beyond the limit of [int]. *)
Example int_of_str_long_port :
  isdigit long_port = true ∧ int_of_str long_port = Raise ValueError.
Proof. split; by vm_compute. Qed.

(** The superscript two is a digit for [isdigit] and no numeral for
    [int]. *)
Example int_of_str_superscript :
  isdigit (String (ascii_of_N 178) "") = true
  ∧ int_of_str (String (ascii_of_N 178) "") = Raise ValueError.
Proof. by split. Qed.

(** [test_config_defaults_and_required_fields] *)
Example config_defaults :
  HiveConfig_init strict strict (<["username" := Scalar (VStr "hue")]> ∅)
  = Ok {| host := "127.0.0.1"; port := 10000; database := None;
          username := "hue"; password := ""; auth := None;
          configuration := ∅; timeout_seconds := 30 |}.
Proof. reflexivity. Qed.

(** [test_config_requires_username] *)
Example config_requires_username :
  HiveConfig_init strict strict ∅ = Raise (ValidationError [("username", Missing)] ∅).
Proof. reflexivity. Qed.

(** [test_config_forbids_extra_fields] *)
Example config_forbids_extra_fields :
  HiveConfig_init strict strict
    (<["username" := Scalar (VStr "hue")]>
       (<["extra_field" := Scalar (VStr "not_allowed")]> ∅))
  = Raise (ValidationError [] {[ "extra_field" ]}).
Proof. reflexivity. Qed.

(** [test_config_from_carrier_map_prefix] *)
Example config_from_carrier_map_prefix :
  from_config_map strict strict
    (list_to_map
       [("old_lackhouse.host", VStr "10.85.24.173");
        ("old_lackhouse.port", VStr "10009");
        ("old_lackhouse.database", VStr "test");
        ("old_lackhouse.username", VStr "hue");
        ("old_lackhouse.password", VStr "pass");
        ("old_lackhouse.auth", VStr "CUSTOM");
        ("old_lackhouse.configuration.spark.app.name", VStr "datacenter_carrier");
        ("old_lackhouse.configuration.spark.executor.instances", VStr "1")])
    "old_lackhouse."
  = Ok {| host := "10.85.24.173"; port := 10009; database := Some "test";
          username := "hue"; password := "pass"; auth := Some "CUSTOM";
          configuration :=
            <["spark.app.name" := VStr "datacenter_carrier"]>
              (<["spark.executor.instances" := VStr "1"]> ∅);
          timeout_seconds := 30 |}.
Proof. reflexivity. Qed.

(** A prefix without its dot leaves the dot in the local keys, which are
    then no fields. *)
Example config_prefix_without_dot :
  from_config_map strict strict (<["hive.username" := VStr "hue"]> ∅) "hive"
  = Raise (ValidationError [("username", Missing)] {[ ".username" ]}).
Proof. reflexivity. Qed.

(** The frame of [test_get_views_parses_results]: no label is one of the
    four names, and the first column with a string is [database]. *)
Example extract_table_names_views :
  _extract_table_names
    {| nrows := 1;
       frame := [("database", [VStr "default"]); ("viewName", [VStr "view_a"]);
                 ("isTemporary", [VBool false])] |}
  = Ok ["default"].
Proof. reflexivity. Qed.

(** Without a string that is not blank, the third loop takes every value
    that is neither [None] nor a boolean, blank strings among them. *)
Example extract_table_names_third_loop :
  _extract_table_names
    {| nrows := 2; frame := [("a", [VStr "  "; VNone]); ("b", [VBool true; VInt 7])] |}
  = Ok ["  "].
Proof. reflexivity. Qed.

(** A label that occurs twice selects a frame, which has no [tolist]. *)
Example extract_table_names_repeated_label :
  _extract_table_names
    {| nrows := 1; frame := [("name", [VStr "a"]); ("name", [VStr "b"])] |}
  = Raise AttributeError.
Proof. reflexivity. Qed.

(** * Further properties of the configuration *)

Section ConfigFurther.

Variable lax_int : pyval → option Z.
Variable lax_str : pyval → option string.

Lemma from_config_map_Ok (m : gmap string pyval) (prefix : string) (r : HiveConfig) :
  from_config_map lax_int lax_str m prefix = Ok r →
  ∃ E, _extract_prefixed_config m prefix = Ok E
       ∧ HiveConfig_init lax_int lax_str E = Ok r.
Proof.
  unfold from_config_map. destruct (_extract_prefixed_config m prefix) as [e|E]; [done|].
  intros H. by exists E.
Qed.

(** The entry of the extracted dictionary under a key that is neither
    [configuration] nor behind [configuration.]. *)
Lemma extracted_base (m : gmap string pyval) (prefix : string)
    (E : gmap string pyarg) (k : string) :
  _extract_prefixed_config m prefix = Ok E →
  k ≠ "configuration" → startswith k "configuration." = false →
  E !! k = m !! (prefix +:+ k) ≫= λ v, Scalar <$> to_option (base_value k v).
Proof.
  intros HE Hk Hs. pose proof (extract_spec m prefix) as Hx. rewrite HE in Hx.
  destruct Hx as [_ Hb]. by rewrite Hb, Hs.
Qed.

(** X1.  The extraction reads only the entries whose key starts with the
    prefix, and among them not the one under [prefix ++ "configuration"],
    which the dictionary of the settings replaces: without all the other
    entries the outcome, record or exception, is the same. *)
Theorem from_config_map_behind_prefix (m : gmap string pyval) (prefix : string) :
  from_config_map lax_int lax_str m prefix
  = from_config_map lax_int lax_str (behind_prefix prefix m) prefix.
Proof.
  unfold from_config_map. f_equal. apply extract_agree. intros k Hk.
  unfold behind_prefix. destruct (m !! (prefix +:+ k)) as [v|] eqn:Hm; symmetry.
  - apply map_lookup_filter_Some. split; [done|]. simpl. split.
    + apply startswith_app.
    + intros Heq. by apply (inj (String.append prefix)) in Heq.
  - apply map_lookup_filter_None. by left.
Qed.

(** X2.  The extraction fails with a [ValueError], which is no validation
    error, exactly when the port is a string that [isdigit] accepts and
    that [int()] does not read: one that has a character which is no
    decimal digit, such as a superscript two, or one of more characters
    than the limit of digits. *)
Theorem from_config_map_ValueError (m : gmap string pyval) (prefix : string) :
  from_config_map lax_int lax_str m prefix = Raise ValueError ↔
    ∃ s, m !! (prefix +:+ "port") = Some (VStr s)
         ∧ isdigit s = true
         ∧ (decimal s = false ∨ max_str_digits < String.length s).
Proof.
  unfold from_config_map. split.
  - destruct (_extract_prefixed_config m prefix) as [e|E] eqn:HE; cbn [rbind].
    + intros [= ->]. by apply extract_raises_iff in HE as [_ ?].
    + intros H. pose proof (init_cases lax_int lax_str E) as Hc. rewrite H in Hc.
      by destruct Hc as [[errors ?] _].
  - intros Hs.
    assert (_extract_prefixed_config m prefix = Raise ValueError) as ->; [|done].
    by apply extract_raises_iff.
Qed.

(** X3.  What a record built from a carrier map holds is what the map
    holds: its settings are the entries behind [configuration.], each
    value as it is in the map, and a host, user name or password given as
    a string, a port or timeout given as an integer and a port given as a
    string of decimal digits are the values of the fields. *)
Theorem from_config_map_values (m : gmap string pyval) (prefix : string)
    (r : HiveConfig) :
  from_config_map lax_int lax_str m prefix = Ok r →
  (∀ k, configuration r !! k = m !! (prefix +:+ "configuration." +:+ k))
  ∧ (∀ s, m !! (prefix +:+ "host") = Some (VStr s) → host r = s)
  ∧ (∀ s, m !! (prefix +:+ "username") = Some (VStr s) → username r = s)
  ∧ (∀ s, m !! (prefix +:+ "password") = Some (VStr s) → password r = s)
  ∧ (∀ z, m !! (prefix +:+ "port") = Some (VInt z) → port r = z)
  ∧ (∀ z, m !! (prefix +:+ "timeout_seconds") = Some (VInt z) → timeout_seconds r = z)
  ∧ (∀ s, m !! (prefix +:+ "port") = Some (VStr s) → decimal s = true →
       int_of_str s = Ok (port r)).
Proof.
  intros H. apply from_config_map_Ok in H as (E & HE & Hinit).
  pose proof (init_cases lax_int lax_str E) as Hc. rewrite Hinit in Hc.
  destruct Hc as (Hh & Hp & _ & Hu & Hpw & _ & Hcf & Ht & _).
  pose proof (extract_spec m prefix) as Hx. rewrite HE in Hx.
  destruct Hx as [(cp & Hcfg & Hcp) _].
  unfold field in *. split_and!.
  - intros k. rewrite Hcfg in Hcf. simpl in Hcf. injection Hcf as <-. apply Hcp.
  - intros s Hs. rewrite (extracted_base m prefix E "host" HE), Hs in Hh by done.
    simpl in Hh. congruence.
  - intros s Hs. rewrite (extracted_base m prefix E "username" HE), Hs in Hu by done.
    simpl in Hu. congruence.
  - intros s Hs. rewrite (extracted_base m prefix E "password" HE), Hs in Hpw by done.
    simpl in Hpw. congruence.
  - intros z Hz. rewrite (extracted_base m prefix E "port" HE), Hz in Hp by done.
    simpl in Hp. congruence.
  - intros z Hz.
    rewrite (extracted_base m prefix E "timeout_seconds" HE), Hz in Ht by done.
    simpl in Ht. congruence.
  - intros s Hs Hdec.
    destruct (int_of_str s) as [e|n] eqn:Hn.
    { assert (_extract_prefixed_config m prefix = Raise ValueError) as Hr; [|congruence].
      apply extract_raises_iff. split; [done|]. exists s.
      split_and!; [done|by apply decimal_isdigit|]. right.
      destruct (decide (String.length s ≤ max_str_digits)) as [Hlen|Hlen]; [|lia].
      destruct (int_of_str_decimal s Hdec Hlen) as [n Hn']. congruence. }
    f_equal.
    assert (E !! "port" = Some (Scalar (VInt n))) as HEp.
    { rewrite (extracted_base m prefix E "port" HE), Hs by done.
      cbn [mbind option_bind]. by rewrite (base_value_port_digits s n Hn). }
    rewrite HEp in Hp. simpl in Hp. congruence.
Qed.

(** X4.  A record built from a carrier map took its user name from the
    map, and has the default of every other base field that the map does
    not give: host 127.0.0.1, port 10000, no database, empty password, no
    authentication, timeout 30, and no settings when no key is behind
    [configuration.]. *)
Theorem from_config_map_defaults (m : gmap string pyval) (prefix : string)
    (r : HiveConfig) :
  from_config_map lax_int lax_str m prefix = Ok r →
  is_Some (m !! (prefix +:+ "username"))
  ∧ (m !! (prefix +:+ "host") = None → host r = "127.0.0.1")
  ∧ (m !! (prefix +:+ "port") = None → port r = 10000%Z)
  ∧ (m !! (prefix +:+ "database") = None → database r = None)
  ∧ (m !! (prefix +:+ "password") = None → password r = "")
  ∧ (m !! (prefix +:+ "auth") = None → auth r = None)
  ∧ (m !! (prefix +:+ "timeout_seconds") = None → timeout_seconds r = 30%Z)
  ∧ ((∀ k, m !! (prefix +:+ "configuration." +:+ k) = None) → configuration r = ∅).
Proof.
  intros H. apply from_config_map_Ok in H as (E & HE & Hinit).
  pose proof (init_cases lax_int lax_str E) as Hc. rewrite Hinit in Hc.
  destruct Hc as (Hh & Hp & Hd & Hu & Hpw & Ha & Hcf & Ht & _).
  pose proof (extract_spec m prefix) as Hx. rewrite HE in Hx.
  destruct Hx as [(cp & Hcfg & Hcp) _].
  unfold field in *. split_and!.
  - rewrite (extracted_base m prefix E "username" HE) in Hu by done.
    by destruct (m !! (prefix +:+ "username")).
  - intros Hs. rewrite (extracted_base m prefix E "host" HE), Hs in Hh by done.
    simpl in Hh. congruence.
  - intros Hs. rewrite (extracted_base m prefix E "port" HE), Hs in Hp by done.
    simpl in Hp. congruence.
  - intros Hs. rewrite (extracted_base m prefix E "database" HE), Hs in Hd by done.
    simpl in Hd. congruence.
  - intros Hs. rewrite (extracted_base m prefix E "password" HE), Hs in Hpw by done.
    simpl in Hpw. congruence.
  - intros Hs. rewrite (extracted_base m prefix E "auth" HE), Hs in Ha by done.
    simpl in Ha. congruence.
  - intros Hs.
    rewrite (extracted_base m prefix E "timeout_seconds" HE), Hs in Ht by done.
    simpl in Ht. congruence.
  - intros Hnone. rewrite Hcfg in Hcf. simpl in Hcf. injection Hcf as <-.
    apply map_eq. intros k. by rewrite Hcp, Hnone, lookup_empty.
Qed.

End ConfigFurther.

(** X3, at a carrier map with a port of text. *)
Lemma from_config_map_values_witness :
  (∀ k, configuration mixed_config !! k
        = mixed_carrier_map !! ("hive." +:+ "configuration." +:+ k))
  ∧ (∀ s, mixed_carrier_map !! ("hive." +:+ "host") = Some (VStr s) →
       host mixed_config = s)
  ∧ (∀ s, mixed_carrier_map !! ("hive." +:+ "username") = Some (VStr s) →
       username mixed_config = s)
  ∧ (∀ s, mixed_carrier_map !! ("hive." +:+ "password") = Some (VStr s) →
       password mixed_config = s)
  ∧ (∀ z, mixed_carrier_map !! ("hive." +:+ "port") = Some (VInt z) →
       port mixed_config = z)
  ∧ (∀ z, mixed_carrier_map !! ("hive." +:+ "timeout_seconds") = Some (VInt z) →
       timeout_seconds mixed_config = z)
  ∧ (∀ s, mixed_carrier_map !! ("hive." +:+ "port") = Some (VStr s) →
       decimal s = true → int_of_str s = Ok (port mixed_config)).
Proof.
  apply (from_config_map_values strict strict mixed_carrier_map "hive." mixed_config).
  reflexivity.
Defined.

(** X4, at the same carrier map. *)
Lemma from_config_map_defaults_witness :
  is_Some (mixed_carrier_map !! ("hive." +:+ "username"))
  ∧ (mixed_carrier_map !! ("hive." +:+ "host") = None →
       host mixed_config = "127.0.0.1")
  ∧ (mixed_carrier_map !! ("hive." +:+ "port") = None → port mixed_config = 10000%Z)
  ∧ (mixed_carrier_map !! ("hive." +:+ "database") = None →
       database mixed_config = None)
  ∧ (mixed_carrier_map !! ("hive." +:+ "password") = None → password mixed_config = "")
  ∧ (mixed_carrier_map !! ("hive." +:+ "auth") = None → auth mixed_config = None)
  ∧ (mixed_carrier_map !! ("hive." +:+ "timeout_seconds") = None →
       timeout_seconds mixed_config = 30%Z)
  ∧ ((∀ k, mixed_carrier_map !! ("hive." +:+ "configuration." +:+ k) = None) →
       configuration mixed_config = ∅).
Proof.
  apply (from_config_map_defaults strict strict mixed_carrier_map "hive." mixed_config).
  reflexivity.
Defined.

(** * Further properties of the quoting *)

Lemma doubled_backtick : doubled backtick = [backtick; backtick].
Proof. done. Qed.

Lemma doubled_other (c : ascii) : c ≠ backtick → doubled c = [c].
Proof. intros Hc. unfold doubled. by rewrite decide_False. Qed.

(** The doubled text is read back up to the backtick that ends it: after
    it comes a backtick that no second one follows. *)
Lemma doubled_delimited (l l' r r' : list ascii) :
  head r ≠ Some backtick → head r' ≠ Some backtick →
  concat (doubled <$> l) ++ backtick :: r = concat (doubled <$> l') ++ backtick :: r' →
  l = l' ∧ r = r'.
Proof.
  intros Hr Hr'. revert l'.
  induction l as [|c l IH]; intros [|c' l']; cbn [fmap list_fmap concat app].
  - by intros [= ->].
  - destruct (decide (c' = backtick)) as [->|Hc'].
    + rewrite doubled_backtick. cbn [app]. intros [= ->]. by destruct Hr.
    + rewrite doubled_other by done. cbn [app]. intros [= <- _]. by destruct Hc'.
  - destruct (decide (c = backtick)) as [->|Hc].
    + rewrite doubled_backtick. cbn [app]. intros [= <-]. by destruct Hr'.
    + rewrite doubled_other by done. cbn [app]. intros [= -> _]. by destruct Hc.
  - destruct (decide (c = backtick)) as [->|Hc];
      destruct (decide (c' = backtick)) as [->|Hc'];
      rewrite ?doubled_backtick, ?(doubled_other c), ?(doubled_other c') by done;
      cbn [app].
    + intros [= H]. by destruct (IH l' H) as [-> ->].
    + intros [= <- _]. by destruct Hc'.
    + intros [= -> _]. by destruct Hc.
    + intros [= -> H]. by destruct (IH l' H) as [-> ->].
Qed.

Lemma list_ascii_quote_identifier (s : string) :
  list_ascii_of_string (_quote_identifier s)
  = backtick :: concat (doubled <$> list_ascii_of_string s) ++ [backtick].
Proof.
  unfold _quote_identifier. by rewrite !list_ascii_app, list_ascii_replace_backtick.
Qed.

Lemma list_ascii_inj (s t : string) :
  list_ascii_of_string s = list_ascii_of_string t → s = t.
Proof.
  intros H. rewrite <- (string_of_list_ascii_of_string s), H.
  apply string_of_list_ascii_of_string.
Qed.

Lemma quoted_chars_inj (a b : string) :
  list_ascii_of_string (_quote_identifier a) = list_ascii_of_string (_quote_identifier b) →
  a = b.
Proof.
  rewrite !list_ascii_quote_identifier. intros [= H].
  apply list_ascii_inj. by apply (doubled_delimited _ _ [] []).
Qed.

(** X5.  Two identifiers with the same quoted form are the same
    identifier: the quoting loses nothing. *)
Theorem quote_identifier_inj (a b : string) :
  _quote_identifier a = _quote_identifier b → a = b.
Proof. intros H. apply quoted_chars_inj. by rewrite H. Qed.

(** X5, at an identifier with a backtick. *)
Lemma quote_identifier_inj_witness : "a`b" = "a`b".
Proof. apply (quote_identifier_inj "a`b" "a`b"). reflexivity. Defined.

Lemma nonempty_false (s : string) : nonempty s = false → s = "".
Proof. by destruct s. Qed.

Lemma list_ascii_qualified (a b : string) :
  list_ascii_of_string (_quote_identifier a +:+ "." +:+ _quote_identifier b)
  = backtick :: concat (doubled <$> list_ascii_of_string a)
      ++ backtick :: "."%char :: list_ascii_of_string (_quote_identifier b).
Proof.
  rewrite !list_ascii_app, list_ascii_quote_identifier.
  cbn [app]. f_equal. by rewrite <- app_assoc.
Qed.

Section FullName.

Variable World : Type.

(** X6.  The qualified name tells the database and the table: two calls
    of [full_name] on the same connector that give the same text were
    made for the same table, in the same database (the one given or, for
    none given, the one of the connector). *)
Theorem full_name_inj (cat db sch t cat' db' sch' t' : string)
    (self : connector World) :
  (full_name World cat db sch t self).1 = (full_name World cat' db' sch' t' self).1 →
  str_or db (database_name self) = str_or db' (database_name self) ∧ t = t'.
Proof.
  unfold full_name, bind, get_database_name, ret. cbn [fst].
  destruct (nonempty (str_or db (database_name self))) eqn:Hd;
    destruct (nonempty (str_or db' (database_name self))) eqn:Hd';
    cbn [fst]; intros H; apply (inj inr) in H;
    apply (f_equal list_ascii_of_string) in H.
  - rewrite (list_ascii_qualified _ t), (list_ascii_qualified _ t') in H.
    apply (f_equal (drop 1)) in H. cbn [drop] in H.
    apply doubled_delimited in H as [Ha Hb]; [|done..].
    apply (f_equal (drop 1)) in Hb. cbn [drop] in Hb.
    split; [by apply list_ascii_inj|by apply quoted_chars_inj].
  - rewrite (list_ascii_qualified _ t), (list_ascii_quote_identifier t') in H.
    apply (f_equal (drop 1)) in H. cbn [drop] in H.
    by apply doubled_delimited in H as [_ [=]].
  - rewrite (list_ascii_qualified _ t'), (list_ascii_quote_identifier t) in H.
    apply (f_equal (drop 1)) in H. cbn [drop] in H.
    by apply doubled_delimited in H as [_ [=]].
  - split; [|by apply quoted_chars_inj].
    by rewrite (nonempty_false _ Hd), (nonempty_false _ Hd').
Qed.

End FullName.

(** X6, at a table named with a dot. *)
Lemma full_name_inj_witness :
  str_or "db" "default" = str_or "db" "default" ∧ "a.b" = "a.b".
Proof.
  apply (full_name_inj unit "" "db" "" "a.b" "" "db" "" "a.b" fresh_connector).
  reflexivity.
Defined.

(** * Further properties of the name extraction *)

Lemma tolist_column (df : DataFrame) (c : string) :
  well_formed df → c ∈ columns df → ∃ vs, (c, vs) ∈ frame df ∧ tolist df c = Ok vs.
Proof.
  intros Hwf Hc. unfold columns in Hc.
  apply list_elem_of_fmap in Hc as ([c' vs] & -> & Hin).
  exists vs. split; [done|]. by apply tolist_elem.
Qed.

Lemma column_map_elem (df : DataFrame) (n c : string) :
  column_map df !! n = Some c → c ∈ columns df.
Proof.
  unfold column_map. rewrite lookup_column_map_foldl.
  destruct (last _) as [c'|] eqn:Hlast; [|by rewrite lookup_empty].
  intros [= <-]. by apply last_Some_elem_of, list_elem_of_filter in Hlast as [_ ?].
Qed.

Lemma by_priority_Some (df : DataFrame) (cm : gmap string string)
    (names : list string) (r : result (list string)) :
  by_priority df cm names = Some r →
  ∃ n c, n ∈ names ∧ cm !! n = Some c
         ∧ r = (do values <- tolist df c; Ok (py_str <$> values)).
Proof.
  induction names as [|n names IH]; [done|]. simpl.
  destruct (cm !! n) as [c|] eqn:Hn.
  - intros [= <-]. exists n, c. split_and!; [left|done..].
  - intros H. destruct (IH H) as (n' & c & Hin & Hc & Hr).
    exists n', c. split_and!; [by right|done..].
Qed.

Lemma sublist_fmap_filter (p : pyval → bool) (vs : list pyval) :
  (py_str <$> List.filter p vs) `sublist_of` (py_str <$> vs).
Proof.
  induction vs as [|v vs IH]; [done|]. simpl.
  destruct (p v); [by apply sublist_skip|by apply sublist_cons].
Qed.

Lemma by_strings_ok (df : DataFrame) (cols : list string) :
  well_formed df → (∀ c, c ∈ cols → c ∈ columns df) →
  ∃ found, by_strings df cols = Ok found
           ∧ ∀ names, found = Some names → from_one_column df names.
Proof.
  intros Hwf. induction cols as [|c cols IH]; intros Hcols.
  { by exists None. }
  destruct IH as (found & Hfound & Hone).
  { intros c' Hc'. apply Hcols. by right. }
  destruct (tolist_column df c Hwf) as (vs & Hin & Hvs); [apply Hcols; left|].
  simpl. rewrite Hvs. cbn [rbind].
  destruct (existsb isinstance_str vs); [|by exists found].
  destruct (nonempty_list _); [|by exists found].
  eexists. split; [done|]. intros names [= <-]. exists c, vs.
  split; [done|apply sublist_fmap_filter].
Qed.

Lemma by_values_ok (df : DataFrame) (cols : list string) :
  well_formed df → (∀ c, c ∈ cols → c ∈ columns df) →
  ∃ found, by_values df cols = Ok found
           ∧ ∀ names, found = Some names → from_one_column df names.
Proof.
  intros Hwf. induction cols as [|c cols IH]; intros Hcols.
  { by exists None. }
  destruct IH as (found & Hfound & Hone).
  { intros c' Hc'. apply Hcols. by right. }
  destruct (tolist_column df c Hwf) as (vs & Hin & Hvs); [apply Hcols; left|].
  simpl. rewrite Hvs. cbn [rbind].
  destruct (nonempty_list _); [|by exists found].
  eexists. split; [done|]. intros names [= <-]. exists c, vs.
  split; [done|apply sublist_fmap_filter].
Qed.

(** X7.  On a frame with distinct labels and columns as long as the index
    [_extract_table_names] raises nothing, and the names it returns, if
    any, are cells of one column, in the order of the rows: names of
    different columns are never mixed. *)
Theorem extract_table_names_total (df : DataFrame) :
  well_formed df →
  ∃ names, _extract_table_names df = Ok names
           ∧ (names = [] ∨ from_one_column df names).
Proof.
  intros Hwf. unfold _extract_table_names.
  destruct (empty df); [exists []; by split; [|left]|].
  destruct (by_priority df (column_map df) priority_names) as [r|] eqn:Hprio.
  - apply by_priority_Some in Hprio as (n & c & _ & Hc & ->).
    apply column_map_elem in Hc.
    destruct (tolist_column df c Hwf Hc) as (vs & Hin & ->). cbn [rbind].
    eexists. split; [done|]. right. by exists c, vs.
  - destruct (by_strings_ok df (columns df) Hwf) as (found & -> & Hone); [done|].
    cbn [rbind]. destruct found as [names|].
    { exists names. split; [done|]. right. by apply Hone. }
    destruct (by_values_ok df (columns df) Hwf) as (found & -> & Hone'); [done|].
    cbn [rbind]. destruct found as [names|].
    + exists names. split; [done|]. right. by apply Hone'.
    + exists []. split; [done|by left].
Qed.

(** X7, at the frame of the test of [get_tables]. *)
Lemma extract_table_names_total_witness :
  ∃ names, _extract_table_names show_tables_frame = Ok names
           ∧ (names = [] ∨ from_one_column show_tables_frame names).
Proof.
  apply (extract_table_names_total show_tables_frame). split.
  - apply (bool_decide_unpack (NoDup (columns show_tables_frame))). by vm_compute.
  - repeat constructor.
Defined.

Lemma filter_plain_nil (values : list pyval) :
  (∀ v, v ∈ values → plain_value v = false) →
  List.filter (λ v, negb (is_none v) && negb (isinstance_bool v)) values = [].
Proof.
  induction values as [|v values IH]; intros Hv; [done|]. simpl.
  pose proof (Hv v ltac:(left)) as Hp. unfold plain_value in Hp. rewrite Hp.
  apply IH. intros v' Hin. apply Hv. by right.
Qed.

Lemma filter_plain_nonempty (values : list pyval) (v : pyval) :
  v ∈ values → plain_value v = true →
  nonempty_list
    (py_str <$> List.filter (λ v, negb (is_none v) && negb (isinstance_bool v)) values)
  = true.
Proof.
  intros Hin Hv.
  assert (v ∈ List.filter (λ v, negb (is_none v) && negb (isinstance_bool v)) values)
    as Hf.
  { apply list_elem_of_In, filter_In. split; [by apply list_elem_of_In|done]. }
  destruct (List.filter _ values); [by apply elem_of_nil in Hf|done].
Qed.

(** The third loop passes over the columns of [None] and booleans. *)
Lemma by_values_skip (df : DataFrame) (skipped : list (string * list pyval))
    (rest : list string) :
  well_formed df →
  (∀ c vs, (c, vs) ∈ skipped → (c, vs) ∈ frame df) →
  (∀ c vs v, (c, vs) ∈ skipped → v ∈ vs → plain_value v = false) →
  by_values df (skipped.*1 ++ rest) = by_values df rest.
Proof.
  intros Hwf. induction skipped as [|[c vs] skipped IH]; intros Hin Hplain; [done|].
  rewrite fmap_cons. simpl.
  rewrite (tolist_elem df c vs) by (done || apply Hin; by left). simpl.
  rewrite (filter_plain_nil vs) by (intros v Hv; apply (Hplain c vs v); [by left|done]).
  simpl. apply IH.
  - intros c' vs' H. apply Hin. by right.
  - intros c' vs' v H. apply (Hplain c' vs' v). by right.
Qed.

(** X8.  The last resort of [_extract_table_names]: on a frame none of
    whose lower-cased labels is one of the four names and none of whose
    cells is a string that is not blank, the column that contributes is
    the first one with a value that is neither [None] nor a boolean, and
    the names are all such values of it, each as [str] gives it; blank
    strings are among them. *)
Theorem extract_table_names_values (df : DataFrame) (c : string)
    (values : list pyval) (left_cols right_cols : list (string * list pyval)) :
  well_formed df →
  (∀ n c', n ∈ priority_names → c' ∈ columns df → lower c' ≠ n) →
  (∀ c' vs v, (c', vs) ∈ frame df → v ∈ vs → nonblank_str v = false) →
  frame df = left_cols ++ (c, values) :: right_cols →
  (∀ c' vs v, (c', vs) ∈ left_cols → v ∈ vs → plain_value v = false) →
  (∃ v, v ∈ values ∧ plain_value v = true) →
  _extract_table_names df = Ok (py_str <$> List.filter plain_value values).
Proof.
  intros Hwf Hprio Hblank Hframe Hleft (v & Hv & Hpv).
  assert ((c, values) ∈ frame df) as Hc.
  { rewrite Hframe. apply elem_of_app. right. left. }
  unfold _extract_table_names.
  assert (empty df = false) as ->.
  { unfold empty. apply orb_false_iff. split; apply bool_decide_eq_false.
    - rewrite <- (well_formed_length df c values) by done.
      destruct values; [by apply elem_of_nil in Hv|done].
    - rewrite Hframe. by destruct left_cols. }
  rewrite by_priority_none.
  2:{ intros n Hn. apply lookup_column_map_None. intros c' Hc'. by apply Hprio. }
  assert (by_strings df (columns df) = Ok None) as ->.
  { rewrite <- (app_nil_r (columns df)). unfold columns.
    by rewrite (by_strings_skip df (frame df) []). }
  cbn [rbind]. unfold columns. rewrite Hframe, fmap_app, fmap_cons.
  rewrite (by_values_skip df left_cols); [|done| |done].
  2:{ intros c' vs H. rewrite Hframe. apply elem_of_app. by left. }
  simpl. rewrite (tolist_elem df c values) by done. cbn [rbind].
  by rewrite (filter_plain_nonempty values v).
Qed.

(** X8, at a frame of flags, counts and blank notes. *)
Lemma extract_table_names_values_witness :
  _extract_table_names counts_frame
  = Ok (py_str <$> List.filter plain_value [VNone; VInt 7]).
Proof.
  apply (extract_table_names_values counts_frame "n" [VNone; VInt 7]
           [("flag", [VBool true; VNone])] [("note", [VStr " "; VStr ""])]).
  - split.
    + apply (bool_decide_unpack (NoDup (columns counts_frame))). by vm_compute.
    + repeat constructor.
  - intros n c' Hn Hc'. unfold columns, priority_names in *. simpl in Hc'.
    repeat (apply elem_of_cons in Hc' as [->|Hc']); [..|by apply elem_of_nil in Hc'];
      repeat (apply elem_of_cons in Hn as [->|Hn]);
      try (by apply elem_of_nil in Hn); by vm_compute.
  - intros c' vs v Hc' Hv. simpl in Hc'.
    repeat (apply elem_of_cons in Hc' as [[= -> ->]|Hc']);
      [..|by apply elem_of_nil in Hc'];
      repeat (apply elem_of_cons in Hv as [->|Hv]);
      try (by apply elem_of_nil in Hv); reflexivity.
  - reflexivity.
  - intros c' vs v Hc' Hv. apply list_elem_of_singleton in Hc' as [= -> ->].
    repeat (apply elem_of_cons in Hv as [->|Hv]);
      try (by apply elem_of_nil in Hv); reflexivity.
  - exists (VInt 7). split; [right; left|reflexivity].
Defined.

(** * Further properties of the schema and of the connect arguments *)

Lemma before_marker_unmarked (names : list string) :
  Forall (λ n, ends_columns n = false) (before_marker names).
Proof.
  induction names as [|n names IH]; [constructor|]. simpl.
  destruct (ends_columns n) eqn:Hn; [constructor|by constructor].
Qed.

Lemma length_before_marker (names : list string) :
  length (before_marker names) ≤ length names.
Proof.
  induction names as [|n names IH]; [done|]. simpl.
  destruct (ends_columns n); simpl; lia.
Qed.

(** The rows of a well-formed frame, by the loop of [get_schema]. *)
Lemma schema_of_frame_rows (df : DataFrame) :
  well_formed df →
  ∃ rows,
    schema_of_frame df = Ok rows
    ∧ name <$> rows = before_marker (name_of_cell <$> name_cells df)
    ∧ length (name_cells df) ≤ nrows df
    ∧ Forall (row_of_frame df) rows.
Proof.
  intros Hwf. unfold schema_of_frame, name_cells, empty.
  destruct (frame df) as [|[col_name cells] cols] eqn:Hframe.
  { exists []. rewrite orb_true_r. split_and!; [done|done|simpl; lia|constructor]. }
  assert ((col_name, cells) ∈ frame df) as Hin by (rewrite Hframe; left).
  pose proof (well_formed_length df col_name cells Hwf Hin) as Hlen.
  destruct (decide (nrows df = 0)) as [Hz|Hnz].
  { rewrite bool_decide_eq_true_2 by done. exists []. simpl.
    rewrite Hz in Hlen. destruct cells; [|done].
    split_and!; [done|done|simpl; lia|constructor]. }
  rewrite bool_decide_eq_false_2 by done. simpl.
  unfold column_at at 1, columns. rewrite Hframe. simpl.
  destruct (describe_loop_spec df col_name cells Hwf Hin cells 0 [])
    as (rows & Hloop & Hnames & _ & Hrows); [done|].
  exists rows. rewrite <- Hlen, Hloop. split_and!; [done|done|lia|done].
Qed.

(** X9.  On a well-formed frame [get_schema] raises nothing; it returns
    at most as many rows as the frame has, none of them with a name that
    is empty or begins with a hash; and a cell that is [None] in the type
    or comment column is reported as the text [None], while a frame
    without these columns gives the empty type and no comment. *)
Theorem schema_of_frame_rows_spec (df : DataFrame) :
  well_formed df →
  ∃ rows,
    schema_of_frame df = Ok rows
    ∧ length rows ≤ nrows df
    ∧ Forall (λ r, ends_columns (name r) = false) rows
    ∧ (∀ r c vs, r ∈ rows → column_at df 1 = Some c → nonempty c = true →
         (c, vs) ∈ frame df → vs !! cid r = Some VNone → type r = "None")
    ∧ (∀ r c vs, r ∈ rows → column_at df 2 = Some c → nonempty c = true →
         (c, vs) ∈ frame df → vs !! cid r = Some VNone → comment r = Some "None")
    ∧ (∀ r, r ∈ rows → column_at df 1 = None → type r = "")
    ∧ (∀ r, r ∈ rows → column_at df 2 = None → comment r = None).
Proof.
  intros Hwf.
  destruct (schema_of_frame_rows df Hwf) as (rows & Hrows & Hnames & Hlen & Hall).
  exists rows. rewrite Forall_forall in Hall. split_and!.
  - done.
  - rewrite <- (length_fmap name rows), Hnames.
    etrans; [apply length_before_marker|]. by rewrite length_fmap.
  - pose proof (before_marker_unmarked (name_of_cell <$> name_cells df)) as Hm.
    rewrite <- Hnames in Hm. by apply Forall_fmap in Hm.
  - intros r c vs Hr Hc Hne Hin Hv.
    destruct (Hall r Hr) as (_ & _ & _ & Ht & _).
    unfold cell_text in Ht. rewrite Hc, Hne, (cell_elem df c vs _ VNone) in Ht by done.
    cbn [rbind to_option fmap option_fmap option_map default] in Ht.
    injection Ht as <-. reflexivity.
  - intros r c vs Hr Hc Hne Hin Hv.
    destruct (Hall r Hr) as (_ & _ & _ & _ & Hcm).
    unfold cell_text in Hcm. rewrite Hc, Hne, (cell_elem df c vs _ VNone) in Hcm by done.
    cbn [rbind to_option] in Hcm. injection Hcm as <-. reflexivity.
  - intros r Hr Hc. destruct (Hall r Hr) as (_ & _ & _ & Ht & _).
    unfold cell_text in Ht. rewrite Hc in Ht. simpl in Ht. congruence.
  - intros r Hr Hc. destruct (Hall r Hr) as (_ & _ & _ & _ & Hcm).
    unfold cell_text in Hcm. rewrite Hc in Hcm. simpl in Hcm. congruence.
Qed.

(** X9, at a frame with comments that are [NULL]. *)
Lemma schema_of_frame_rows_spec_witness :
  ∃ rows,
    schema_of_frame null_comment_frame = Ok rows
    ∧ length rows ≤ nrows null_comment_frame
    ∧ Forall (λ r, ends_columns (name r) = false) rows
    ∧ (∀ r c vs, r ∈ rows → column_at null_comment_frame 1 = Some c →
         nonempty c = true → (c, vs) ∈ frame null_comment_frame →
         vs !! cid r = Some VNone → type r = "None")
    ∧ (∀ r c vs, r ∈ rows → column_at null_comment_frame 2 = Some c →
         nonempty c = true → (c, vs) ∈ frame null_comment_frame →
         vs !! cid r = Some VNone → comment r = Some "None")
    ∧ (∀ r, r ∈ rows → column_at null_comment_frame 1 = None → type r = "")
    ∧ (∀ r, r ∈ rows → column_at null_comment_frame 2 = None → comment r = None).
Proof.
  apply (schema_of_frame_rows_spec null_comment_frame). split.
  - apply (bool_decide_unpack (NoDup (columns null_comment_frame))). by vm_compute.
  - repeat constructor.
Defined.

Example schema_of_null_comment_frame :
  schema_of_frame null_comment_frame
  = Ok [ {| cid := 0; name := "id"; type := "int"; comment := Some "None";
            nullable := true; pk := false; default_value := None |} ].
Proof. reflexivity. Qed.




(** * Further properties of the methods *)

Section MethodFacts.

Variable World : Type.
Variable connect_world : World → result unit * World.
Variable execute_world : string → World → result DataFrame * World.
Variable query_world : string → World → result unit * World.
Variable identifier : string → string → string.
Variable reset_filter_tables :
  option (list string) → string → string → string → list string.
Variable to_csv : DataFrame → string.

Lemma keeps_ret {A} (a : A) : keeps_database_name (ret World a).
Proof. by intros self. Qed.

Lemma keeps_lift {A} (r : result A) : keeps_database_name (lift World r).
Proof. by intros self. Qed.

Lemma keeps_bind {A B} (m : method World A) (k : A → method World B) :
  keeps_database_name m → (∀ a, keeps_database_name (k a)) →
  keeps_database_name (bind World m k).
Proof.
  intros Hm Hk self. unfold bind. specialize (Hm self).
  destruct (m self) as [[e|a] self']; [done|].
  rewrite <- Hm. apply Hk.
Qed.

Lemma keeps_try_except {A B} (m : method World A) (handler : pyexn → method World B)
    (k : A → method World B) :
  keeps_database_name m → (∀ e, keeps_database_name (handler e)) →
  (∀ a, keeps_database_name (k a)) →
  keeps_database_name (try_except World m handler k).
Proof.
  intros Hm Hh Hk self. unfold try_except. specialize (Hm self).
  destruct (m self) as [[e|a] self']; rewrite <- Hm; [apply Hh|apply Hk].
Qed.

Lemma keeps_connect : keeps_database_name (connect World connect_world).
Proof. intros self. unfold connect. by destruct (connect_world _). Qed.

Lemma keeps_execute_pandas (sql : string) :
  keeps_database_name (_execute_pandas World execute_world sql).
Proof. intros self. unfold _execute_pandas. by destruct (execute_world _ _). Qed.

Lemma keeps_get_database_name : keeps_database_name (get_database_name World).
Proof. by intros self. Qed.

Lemma full_name_text (cat db sch t : string) (self : connector World) :
  full_name World cat db sch t self
  = (Ok (qualified_name (str_or db (database_name self)) t), self).
Proof.
  unfold full_name, bind, get_database_name, ret, qualified_name.
  by destruct (nonempty _).
Qed.

Lemma keeps_full_name (cat db sch t : string) :
  keeps_database_name (full_name World cat db sch t).
Proof. intros self. by rewrite full_name_text. Qed.

Lemma keeps_show_create (full : string) :
  keeps_database_name (_show_create World execute_world full).
Proof.
  apply keeps_bind; [apply keeps_execute_pandas|].
  intros df. destruct (empty df); apply keeps_ret.
Qed.

Lemma keeps_get_tables (cat db sch : string) :
  keeps_database_name (get_tables World connect_world execute_world cat db sch).
Proof.
  apply keeps_bind; [apply keeps_connect|]. intros _.
  apply keeps_bind; [apply keeps_get_database_name|]. intros dbn.
  apply keeps_bind; [apply keeps_execute_pandas|]. intros df. apply keeps_lift.
Qed.

Lemma keeps_get_views (cat db sch : string) :
  keeps_database_name (get_views World connect_world execute_world cat db sch).
Proof.
  apply keeps_bind; [apply keeps_connect|]. intros _.
  apply keeps_bind; [apply keeps_get_database_name|]. intros dbn.
  apply keeps_try_except; [apply keeps_execute_pandas|intros; apply keeps_ret|].
  intros df. apply keeps_lift.
Qed.

Lemma keeps_tables_ddl_loop (db : string) (filter_tables names : list string)
    (acc : list ddl_entry) :
  keeps_database_name
    (tables_ddl_loop World execute_world identifier db filter_tables names acc).
Proof.
  revert acc. induction names as [|n names IH]; intros acc; [apply keeps_ret|].
  cbn [tables_ddl_loop]. apply keeps_bind; [apply keeps_full_name|]. intros full.
  destruct (_ && _); [apply IH|].
  apply keeps_bind; [apply keeps_show_create|]. intros ddl. apply IH.
Qed.

Lemma keeps_views_ddl_loop (db : string) (names : list string) (acc : list ddl_entry) :
  keeps_database_name (views_ddl_loop World execute_world identifier db names acc).
Proof.
  revert acc. induction names as [|n names IH]; intros acc; [apply keeps_ret|].
  cbn [views_ddl_loop]. apply keeps_bind; [apply keeps_full_name|]. intros full.
  apply keeps_bind; [apply keeps_show_create|]. intros ddl. apply IH.
Qed.

Lemma keeps_sample_loop (db table_type : string) (top_n : Z) (names : list string)
    (acc : list sample_entry) :
  keeps_database_name
    (sample_loop World execute_world identifier to_csv db table_type top_n names acc).
Proof.
  revert acc. induction names as [|n names IH]; intros acc; [apply keeps_ret|].
  cbn [sample_loop]. apply keeps_bind; [apply keeps_full_name|]. intros full.
  apply keeps_bind; [apply keeps_lift|]. intros query.
  apply keeps_bind; [apply keeps_execute_pandas|]. intros df.
  destruct (negb _); apply IH.
Qed.

(** X11.  No method that reads the catalogue changes the database of the
    connector, whatever the server answers and whether the method returns
    or raises: [get_databases], [get_tables], [get_views], [get_schema],
    [get_tables_with_ddl], [get_views_with_ddl] and [get_sample_rows]
    leave [self.database_name] as it was. *)
Theorem catalogue_methods_keep_database_name :
  (∀ cat include_sys,
     keeps_database_name (get_databases World connect_world execute_world cat include_sys))
  ∧ (∀ cat db sch,
       keeps_database_name (get_tables World connect_world execute_world cat db sch))
  ∧ (∀ cat db sch,
       keeps_database_name (get_views World connect_world execute_world cat db sch))
  ∧ (∀ cat db sch t,
       keeps_database_name (get_schema World connect_world execute_world cat db sch t))
  ∧ (∀ cat db sch tables,
       keeps_database_name
         (get_tables_with_ddl World connect_world execute_world identifier
            reset_filter_tables cat db sch tables))
  ∧ (∀ cat db sch,
       keeps_database_name
         (get_views_with_ddl World connect_world execute_world identifier cat db sch))
  ∧ (∀ tables top_n cat db sch table_type,
       keeps_database_name
         (get_sample_rows World connect_world execute_world identifier to_csv
            tables top_n cat db sch table_type)).
Proof.
  split_and!.
  - intros cat include_sys. apply keeps_bind; [apply keeps_connect|]. intros _.
    apply keeps_bind; [apply keeps_execute_pandas|]. intros df.
    destruct (empty df); [apply keeps_ret|].
    destruct (column_at df 0); [|apply keeps_lift].
    apply keeps_bind; [apply keeps_lift|]. intros values.
    destruct include_sys; [apply keeps_ret|].
    cbv zeta. case_bool_decide; apply keeps_ret.
  - apply keeps_get_tables.
  - apply keeps_get_views.
  - intros cat db sch t. unfold get_schema.
    destruct (negb (nonempty t)); [apply keeps_ret|].
    apply keeps_bind; [apply keeps_connect|]. intros _.
    apply keeps_bind; [apply keeps_get_database_name|]. intros dbn.
    apply keeps_bind; [apply keeps_full_name|]. intros full.
    apply keeps_bind; [apply keeps_execute_pandas|]. intros df. apply keeps_lift.
  - intros cat db sch tables. apply keeps_bind; [apply keeps_connect|]. intros _.
    apply keeps_bind; [apply keeps_get_database_name|]. intros dbn.
    apply keeps_bind; [apply keeps_get_tables|]. intros names.
    apply keeps_tables_ddl_loop.
  - intros cat db sch. apply keeps_bind; [apply keeps_connect|]. intros _.
    apply keeps_bind; [apply keeps_get_database_name|]. intros dbn.
    apply keeps_bind; [apply keeps_get_views|]. intros names.
    apply keeps_views_ddl_loop.
  - intros tables top_n cat db sch table_type.
    apply keeps_bind; [apply keeps_connect|]. intros _.
    apply keeps_bind; [apply keeps_get_database_name|]. intros dbn.
    apply keeps_bind; [|intros names; apply keeps_sample_loop].
    destruct tables as [[|t ts]|]; (apply keeps_get_tables || apply keeps_ret).
Qed.

End MethodFacts.

Section MethodProperties.

Variable World : Type.
Variable connect_world : World → result unit * World.
Variable execute_world : string → World → result DataFrame * World.
Variable query_world : string → World → result unit * World.
Variable identifier : string → string → string.
Variable reset_filter_tables :
  option (list string) → string → string → string → list string.
Variable to_csv : DataFrame → string.

(** X12.  [get_databases] does the same with and without [include_sys]:
    the set of the system databases of Hive is empty, so nothing is ever
    left out.  And for a frame that is not empty and well formed, returned
    after a connection that succeeded, the databases are the cells of its
    first column, each as [str] gives it. *)
Theorem get_databases_include_sys (catalog_name : string) (self : connector World) :
  get_databases World connect_world execute_world catalog_name true self
  = get_databases World connect_world execute_world catalog_name false self
  ∧ ∀ include_sys w1 w2 df,
      connect_world (world self) = (Ok (), w1) →
      execute_world "SHOW DATABASES" w1 = (Ok df, w2) →
      well_formed df → empty df = false →
      (get_databases World connect_world execute_world catalog_name include_sys self).1
      = Ok (py_str <$> iloc0 df).
Proof.
  assert (bool_decide ((set_map lower _sys_databases : gset string) = ∅) = true) as Hsys.
  { apply bool_decide_eq_true. unfold _sys_databases. apply set_map_empty. }
  split.
  - unfold get_databases, bind, connect, _execute_pandas.
    destruct (connect_world (world self)) as [[e|[]] w1]; [done|]. cbn [world].
    destruct (execute_world "SHOW DATABASES" w1) as [[e|df] w2]; [done|].
    destruct (empty df); [done|]. destruct (column_at df 0); [|done].
    unfold lift. destruct (tolist df s); [done|]. by rewrite Hsys.
  - intros include_sys w1 w2 df Hconnect Hexec Hwf Hne.
    unfold get_databases, bind, connect, _execute_pandas.
    rewrite Hconnect. cbn [world]. rewrite Hexec, Hne.
    unfold empty in Hne. apply orb_false_iff in Hne as [_ Hframe].
    apply bool_decide_eq_false in Hframe.
    unfold column_at, columns, iloc0.
    destruct (frame df) as [|[c vs] cols] eqn:Hf; [done|]. cbn [fmap list_fmap lookup list_lookup fst snd].
    unfold lift. rewrite (tolist_elem df c vs); [|done|rewrite Hf; left].
    destruct include_sys; [done|]. by rewrite Hsys.
Qed.

(** X13.  [do_switch_context] does nothing for an empty name.  For any
    other name it runs the statement [USE] with the quoted name: when that
    succeeds the name becomes the database of the connector, and when it
    raises the exception comes out and the database is the one it was.  So
    a database of the connector that is not empty never becomes empty. *)
Theorem do_switch_context_spec (catalog_name db schema_name : string)
    (self : connector World) :
  do_switch_context World query_world catalog_name "" schema_name self = (Ok (), self)
  ∧ (∀ w, nonempty db = true →
       query_world ("USE " +:+ _quote_identifier db) (world self) = (Ok (), w) →
       do_switch_context World query_world catalog_name db schema_name self
       = (Ok (), {| database_name := db; world := w; trace := trace self |}))
  ∧ (∀ exc w, nonempty db = true →
       query_world ("USE " +:+ _quote_identifier db) (world self) = (Raise exc, w) →
       do_switch_context World query_world catalog_name db schema_name self
       = (Raise exc,
          {| database_name := database_name self; world := w; trace := trace self |}))
  ∧ (nonempty (database_name self) = true →
     nonempty
       (database_name
          (do_switch_context World query_world catalog_name db schema_name self).2)
     = true).
Proof.
  split_and!.
  - by destruct self.
  - intros w Hdb Hquery. unfold do_switch_context, bind, _execute_query.
    by rewrite Hdb, Hquery.
  - intros exc w Hdb Hquery. unfold do_switch_context, bind, _execute_query.
    by rewrite Hdb, Hquery.
  - intros Hself. unfold do_switch_context, bind, _execute_query, set_database_name.
    destruct (nonempty db) eqn:Hdb; [|done].
    by destruct (query_world _ _) as [[exc|[]] w].
Qed.

End MethodProperties.

Lemma str_or_idem (a b : string) : str_or (str_or a b) b = str_or a b.
Proof. unfold str_or. destruct (nonempty a) eqn:Ha; [by rewrite Ha|by destruct (nonempty b)]. Qed.

Section DdlProperties.

Variable World : Type.
Variable connect_world : World → result unit * World.
Variable execute_world : string → World → result DataFrame * World.
Variable identifier : string → string → string.
Variable reset_filter_tables :
  option (list string) → string → string → string → list string.

(** X14.  When the statement that lists the views raises, after the two
    connections of the call have succeeded, [get_views_with_ddl] returns
    the empty list and no error: [get_views] has caught the exception.
    [get_tables_with_ddl] lets the exception of its listing through. *)
Theorem get_views_with_ddl_listing_fails (catalog_name db schema_name : string)
    (tables : option (list string)) (self : connector World) (w1 w2 w3 : World)
    (exc : pyexn) :
  connect_world (world self) = (Ok (), w1) →
  connect_world w1 = (Ok (), w2) →
  (execute_world (views_sql (str_or db (database_name self))) w2 = (Raise exc, w3) →
   get_views_with_ddl World connect_world execute_world identifier
     catalog_name db schema_name self
   = (Ok [],
      {| database_name := database_name self; world := w3;
         trace := trace self
                  ++ [Connect; Connect;
                      Execute (views_sql (str_or db (database_name self)))] |}))
  ∧ (execute_world (tables_sql (str_or db (database_name self))) w2 = (Raise exc, w3) →
     get_tables_with_ddl World connect_world execute_world identifier
       reset_filter_tables catalog_name db schema_name tables self
     = (Raise exc,
        {| database_name := database_name self; world := w3;
           trace := trace self
                    ++ [Connect; Connect;
                        Execute (tables_sql (str_or db (database_name self)))] |})).
Proof.
  intros Hc1 Hc2. split; intros Hexec.
  - unfold get_views_with_ddl, get_views, bind, try_except, connect, _execute_pandas,
      get_database_name.
    rewrite Hc1. cbn [world database_name trace]. rewrite Hc2.
    cbn [world database_name trace]. rewrite str_or_idem, Hexec.
    cbn [world database_name trace ret views_ddl_loop].
    by rewrite <- !app_assoc.
  - unfold get_tables_with_ddl, get_tables, bind, connect, _execute_pandas,
      get_database_name.
    rewrite Hc1. cbn [world database_name trace]. rewrite Hc2.
    cbn [world database_name trace]. rewrite str_or_idem, Hexec.
    cbn [world database_name trace]. by rewrite <- !app_assoc.
Qed.

Lemma views_ddl_loop_Ok (db : string) (names : list string) (acc entries : list ddl_entry)
    (self self' : connector World) :
  views_ddl_loop World execute_world identifier db names acc self = (Ok entries, self') →
  ∃ more, entries = acc ++ more ∧ ddl_table_name <$> more = names
          ∧ Forall (view_entry identifier db) more.
Proof.
  revert acc self. induction names as [|n names IH]; intros acc self.
  { intros [= <- <-]. exists []. by rewrite app_nil_r. }
  cbn [views_ddl_loop]. unfold bind at 1. rewrite full_name_text.
  unfold bind at 1.
  destruct (_show_create World execute_world _ self) as [[e|ddl] self1]; [done|].
  intros H. apply IH in H as (more & -> & Hnames & Hall).
  eexists (_ :: more). split_and!.
  - by rewrite <- app_assoc.
  - by rewrite fmap_cons, Hnames.
  - by constructor.
Qed.

(** X15.  A list that [get_views_with_ddl] returns has one entry for each
    view that [get_views] listed, in the same order, each of type [view],
    of the database asked for (or of the connector), with empty catalogue
    and schema, and with the identifier of its database and name. *)
Theorem get_views_with_ddl_entries (catalog_name db schema_name : string)
    (self self' : connector World) (entries : list ddl_entry) :
  get_views_with_ddl World connect_world execute_world identifier
    catalog_name db schema_name self = (Ok entries, self') →
  ∃ self1 self2 names,
    connect World connect_world self = (Ok (), self1)
    ∧ get_views World connect_world execute_world ""
        (str_or db (database_name self)) "" self1 = (Ok names, self2)
    ∧ ddl_table_name <$> entries = names
    ∧ Forall (view_entry identifier (str_or db (database_name self))) entries.
Proof.
  unfold get_views_with_ddl. unfold bind at 1.
  pose proof (keeps_connect World connect_world self) as Hk.
  destruct (connect World connect_world self) as [[e|[]] self1]; [done|].
  unfold bind at 1. unfold get_database_name at 1. cbn [fst snd] in *.
  rewrite Hk. unfold bind at 1.
  destruct (get_views World connect_world execute_world "" _ "" self1)
    as [[e|names] self2] eqn:Hv; [done|].
  intros H. apply views_ddl_loop_Ok in H as (more & -> & Hnames & Hall).
  exists self1, self2, names. by rewrite app_nil_l.
Qed.

End DdlProperties.

(** X14, at a server that fails every statement. *)
Lemma get_views_with_ddl_listing_fails_witness :
  get_views_with_ddl unit accepting_connect failing_execute dotted
    "" "" "" fresh_connector
  = (Ok [],
     {| database_name := "default"; world := ();
        trace := [Connect; Connect; Execute "SHOW VIEWS IN `default`"] |}).
Proof.
  apply (get_views_with_ddl_listing_fails unit accepting_connect failing_execute
           dotted (λ _ _ _ _, []) "" "" "" None fresh_connector () () ()
           (DriverError "statement failed") eq_refl eq_refl).
  reflexivity.
Defined.

(** X15, at a server that answers every statement with the names [a] and
    [b]. *)
Lemma get_views_with_ddl_entries_witness :
  ∃ self1 self2 names,
    connect unit accepting_connect fresh_connector = (Ok (), self1)
    ∧ get_views unit accepting_connect listing_execute "" "default" "" self1
      = (Ok names, self2)
    ∧ ddl_table_name
        <$> [ {| ddl_identifier := "default.a"; ddl_catalog_name := "";
                 ddl_schema_name := ""; ddl_database_name := "default";
                 ddl_table_name := "a"; ddl_table_type := "view";
                 ddl_definition := "a" +:+ newline +:+ "b" |};
              {| ddl_identifier := "default.b"; ddl_catalog_name := "";
                 ddl_schema_name := ""; ddl_database_name := "default";
                 ddl_table_name := "b"; ddl_table_type := "view";
                 ddl_definition := "a" +:+ newline +:+ "b" |} ]
      = names
    ∧ Forall (view_entry dotted "default")
        [ {| ddl_identifier := "default.a"; ddl_catalog_name := "";
             ddl_schema_name := ""; ddl_database_name := "default";
             ddl_table_name := "a"; ddl_table_type := "view";
             ddl_definition := "a" +:+ newline +:+ "b" |};
          {| ddl_identifier := "default.b"; ddl_catalog_name := "";
             ddl_schema_name := ""; ddl_database_name := "default";
             ddl_table_name := "b"; ddl_table_type := "view";
             ddl_definition := "a" +:+ newline +:+ "b" |} ].
Proof.
  apply (get_views_with_ddl_entries unit accepting_connect listing_execute dotted
           "" "" "" fresh_connector
           {| database_name := "default"; world := ();
              trace := [Connect; Connect; Execute "SHOW VIEWS IN `default`";
                        Execute "SHOW CREATE TABLE `default`.`a`";
                        Execute "SHOW CREATE TABLE `default`.`b`"] |}).
  reflexivity.
Defined.

Section TablesDdl.

Variable World : Type.
Variable connect_world : World → result unit * World.
Variable execute_world : string → World → result DataFrame * World.
Variable identifier : string → string → string.
Variable reset_filter_tables :
  option (list string) → string → string → string → list string.

Lemma tables_ddl_loop_Ok (db : string) (filter_tables names : list string)
    (acc entries : list ddl_entry) (self self' : connector World) :
  tables_ddl_loop World execute_world identifier db filter_tables names acc self
  = (Ok entries, self') →
  ∃ more, entries = acc ++ more
          ∧ ddl_table_name <$> more
            = filter (λ t, kept filter_tables (str_or db (database_name self)) t) names
          ∧ Forall (table_entry identifier db) more.
Proof.
  revert acc self. induction names as [|n names IH]; intros acc self.
  { intros [= <- <-]. exists []. by rewrite app_nil_r. }
  cbn [tables_ddl_loop]. unfold bind at 1. rewrite full_name_text.
  destruct (nonempty_list filter_tables && negb (bool_decide _)) eqn:Hc.
  { intros H. apply IH in H as (more & -> & Hnames & Hall).
    exists more. split_and!; try done.
    rewrite filter_cons_False; [done|]. unfold kept. rewrite Hc. intros []. }
  unfold bind at 1.
  pose proof (keeps_show_create World execute_world
                (qualified_name (str_or db (database_name self)) n) self) as Hk.
  destruct (_show_create World execute_world _ self) as [[e|ddl] self1]; [done|].
  cbn [snd] in Hk.
  intros H. apply IH in H as (more & -> & Hnames & Hall). rewrite Hk in Hnames.
  eexists (_ :: more). split_and!.
  - by rewrite <- app_assoc.
  - rewrite filter_cons_True; [|unfold kept; rewrite Hc; exact I].
    by rewrite fmap_cons, Hnames.
  - by constructor.
Qed.

(** X16.  A list that [get_tables_with_ddl] returns has one entry, in the
    order of the listing, for each table that [get_tables] listed and the
    filter keeps: all of them when the filter is empty, otherwise those
    whose quoted full name is in the filter.  Each entry is of type
    [table], of the database asked for (or of the connector), with empty
    catalogue and schema. *)
Theorem get_tables_with_ddl_entries (catalog_name db schema_name : string)
    (tables : option (list string)) (self self' : connector World)
    (entries : list ddl_entry) :
  get_tables_with_ddl World connect_world execute_world identifier
    reset_filter_tables catalog_name db schema_name tables self
  = (Ok entries, self') →
  ∃ self1 self2 names,
    connect World connect_world self = (Ok (), self1)
    ∧ get_tables World connect_world execute_world ""
        (str_or db (database_name self)) "" self1 = (Ok names, self2)
    ∧ ddl_table_name <$> entries
      = filter (λ t, kept (reset_filter_tables tables catalog_name
                             (str_or db (database_name self)) schema_name)
                       (str_or db (database_name self)) t) names
    ∧ Forall (table_entry identifier (str_or db (database_name self))) entries.
Proof.
  unfold get_tables_with_ddl. unfold bind at 1.
  pose proof (keeps_connect World connect_world self) as Hk.
  destruct (connect World connect_world self) as [[e|[]] self1]; [done|].
  unfold bind at 1. unfold get_database_name at 1. cbn [fst snd] in *.
  rewrite Hk. unfold bind at 1.
  pose proof (keeps_get_tables World connect_world execute_world ""
                (str_or db (database_name self)) "" self1) as Hk2.
  destruct (get_tables World connect_world execute_world "" _ "" self1)
    as [[e|names] self2] eqn:Ht; [done|].
  cbn [snd] in Hk2.
  intros H. apply tables_ddl_loop_Ok in H as (more & -> & Hnames & Hall).
  rewrite Hk2, Hk, str_or_idem in Hnames.
  exists self1, self2, names. by rewrite app_nil_l.
Qed.

End TablesDdl.

(** X16, at a server that answers every statement with the names [a] and
    [b], for the filter made of the table [b]. *)
Lemma get_tables_with_ddl_entries_witness :
  ∃ self1 self2 names,
    connect unit accepting_connect fresh_connector = (Ok (), self1)
    ∧ get_tables unit accepting_connect listing_execute "" "default" "" self1
      = (Ok names, self2)
    ∧ ddl_table_name
        <$> [ {| ddl_identifier := "default.b"; ddl_catalog_name := "";
                 ddl_schema_name := ""; ddl_database_name := "default";
                 ddl_table_name := "b"; ddl_table_type := "table";
                 ddl_definition := "a" +:+ newline +:+ "b" |} ]
      = filter (λ t, kept (qualified_filter (Some ["b"]) "" "default" "")
                       "default" t) names
    ∧ Forall (table_entry dotted "default")
        [ {| ddl_identifier := "default.b"; ddl_catalog_name := "";
             ddl_schema_name := ""; ddl_database_name := "default";
             ddl_table_name := "b"; ddl_table_type := "table";
             ddl_definition := "a" +:+ newline +:+ "b" |} ].
Proof.
  apply (get_tables_with_ddl_entries unit accepting_connect listing_execute dotted
           qualified_filter "" "" "" (Some ["b"]) fresh_connector
           {| database_name := "default"; world := ();
              trace := [Connect; Connect; Execute "SHOW TABLES IN `default`";
                        Execute "SHOW CREATE TABLE `default`.`b`"] |}).
  reflexivity.
Defined.

Section SampleRows.

Variable World : Type.
Variable connect_world : World → result unit * World.
Variable execute_world : string → World → result DataFrame * World.
Variable identifier : string → string → string.
Variable to_csv : DataFrame → string.

Lemma sample_sql_within (full : string) (top_n : Z) :
  exceeds_max_str_digits top_n = false →
  sample_sql full top_n
  = Ok ("SELECT * FROM " +:+ full +:+ " LIMIT " +:+ str_of_int top_n).
Proof. intros Hlim. unfold sample_sql, int_str. by rewrite Hlim. Qed.

(** The loop of [get_sample_rows] hands over the statements of its tables
    up to the first that raises, and keeps an entry for every frame that
    is not empty. *)
Lemma sample_loop_run (db table_type : string) (top_n : Z) (names : list string) :
  exceeds_max_str_digits top_n = false →
  ∀ (acc : list sample_entry) (self : connector World)
    (ran : list string) (frames : list DataFrame) (exc : option pyexn) (w2 : World),
    executed_until_raise execute_world
      (select_statement (str_or db (database_name self)) top_n <$> names) (world self)
    = (ran, frames, exc, w2) →
    sample_loop World execute_world identifier to_csv
      db table_type top_n names acc self
    = (match exc with
       | Some e => Raise e
       | None =>
           Ok (acc ++ omap (sample_of identifier to_csv db table_type)
                        (zip names frames))
       end,
       {| database_name := database_name self; world := w2;
          trace := trace self ++ (Execute <$> ran) |}).
Proof.
  intros Hlim. induction names as [|n names IH]; intros acc self ran frames exc w2.
  { cbn [fmap list_fmap executed_until_raise sample_loop ret].
    intros [= <- <- <- <-]. cbn [fmap list_fmap zip zip_with omap list_omap fst snd].
    rewrite !app_nil_r. by destruct self. }
  cbn [fmap list_fmap executed_until_raise sample_loop].
  unfold bind at 1. rewrite full_name_text.
  unfold bind at 1. unfold lift at 1. rewrite sample_sql_within by done.
  fold (select_statement (str_or db (database_name self)) top_n n).
  unfold bind at 1. unfold _execute_pandas at 1.
  destruct (execute_world _ (world self)) as [[e|df] w'].
  { by intros [= <- <- <- <-]. }
  set (self1 := {| database_name := database_name self; world := w';
                   trace := trace self ++ _ |}).
  destruct (executed_until_raise execute_world _ w') as [[[ran' frames'] exc'] w'']
    eqn:Hrest.
  intros [= <- <- <- <-].
  cbn [zip zip_with omap list_omap]. unfold sample_of at 1. cbn [fst snd].
  destruct (empty df); cbn [negb].
  - rewrite (IH acc self1 ran' frames' exc' w'' Hrest).
    cbn [database_name trace self1 fmap list_fmap]. by rewrite <- app_assoc.
  - rewrite (IH _ self1 ran' frames' exc' w'' Hrest).
    cbn [database_name trace self1 fmap list_fmap].
    rewrite <- !app_assoc. by destruct exc'.
Qed.

(** X17.  With a list of tables that is not empty, [get_sample_rows] never
    lists the tables of the database.  After a connection that succeeded
    it hands to the server the [SELECT] statements of the tables given, in
    their order, and stops at the first that raises, whose exception it
    lets through; the statements after it are not run.  When no statement
    raises it returns, in the order of the tables, exactly one entry for
    every table whose frame is not empty, with the table type passed in,
    the database asked for (or that of the connector) and the rows of the
    frame.  A [top_n] beyond the limit of digits raises [ValueError]
    before any statement is run. *)
Theorem get_sample_rows_given_tables (t : string) (ts : list string) (top_n : Z)
    (catalog_name db schema_name table_type : string) (self : connector World)
    (w1 : World) :
  connect_world (world self) = (Ok (), w1) →
  (exceeds_max_str_digits top_n = true →
   get_sample_rows World connect_world execute_world identifier to_csv
     (Some (t :: ts)) top_n catalog_name db schema_name table_type self
   = (Raise ValueError,
      {| database_name := database_name self; world := w1;
         trace := trace self ++ [Connect] |}))
  ∧ (exceeds_max_str_digits top_n = false →
     ∀ (ran : list string) (frames : list DataFrame) (exc : option pyexn) (w2 : World),
       executed_until_raise execute_world
         (select_statement (str_or db (database_name self)) top_n <$> t :: ts) w1
       = (ran, frames, exc, w2) →
       get_sample_rows World connect_world execute_world identifier to_csv
         (Some (t :: ts)) top_n catalog_name db schema_name table_type self
       = (match exc with
          | Some e => Raise e
          | None =>
              Ok (omap (sample_of identifier to_csv
                          (str_or db (database_name self)) table_type)
                    (zip (t :: ts) frames))
          end,
          {| database_name := database_name self; world := w2;
             trace := trace self ++ Connect :: (Execute <$> ran) |})).
Proof.
  intros Hconnect.
  set (self1 := {| database_name := database_name self; world := w1;
                   trace := trace self ++ [Connect] |}).
  assert (get_sample_rows World connect_world execute_world identifier to_csv
            (Some (t :: ts)) top_n catalog_name db schema_name table_type self
          = sample_loop World execute_world identifier to_csv
              (str_or db (database_name self)) table_type top_n (t :: ts) [] self1)
    as ->.
  { unfold get_sample_rows, bind, connect, get_database_name, ret.
    by rewrite Hconnect. }
  split.
  - intros Hlim. cbn [sample_loop]. unfold bind at 1. rewrite full_name_text.
    unfold bind at 1. unfold lift, sample_sql, int_str. by rewrite Hlim.
  - intros Hlim ran frames exc w2 Hrun.
    rewrite (sample_loop_run (str_or db (database_name self)) table_type top_n
               (t :: ts) Hlim [] self1 ran frames exc w2).
    2:{ cbn [database_name self1 world]. by rewrite str_or_idem. }
    cbn [database_name trace self1]. by rewrite <- app_assoc.
Qed.

End SampleRows.

(** X17, at a server that fails the statement of the second of three
    tables: the third statement is not run. *)
Lemma get_sample_rows_given_tables_witness :
  get_sample_rows unit accepting_connect
    (failing_on "SELECT * FROM `default`.`b` LIMIT 5") dotted rows_csv
    (Some ["a"; "b"; "c"]) 5 "" "" "" "table" fresh_connector
  = (Raise (DriverError "statement failed"),
     {| database_name := "default"; world := ();
        trace := [Connect; Execute "SELECT * FROM `default`.`a` LIMIT 5";
                  Execute "SELECT * FROM `default`.`b` LIMIT 5"] |}).
Proof.
  apply (proj2 (get_sample_rows_given_tables unit accepting_connect
                  (failing_on "SELECT * FROM `default`.`b` LIMIT 5") dotted rows_csv
                  "a" ["b"; "c"] 5 "" "" "" "table" fresh_connector () eq_refl)
           eq_refl
           ["SELECT * FROM `default`.`a` LIMIT 5"; "SELECT * FROM `default`.`b` LIMIT 5"]
           [ {| nrows := 2; frame := [("name", [VStr "a"; VStr "b"])] |} ]
           (Some (DriverError "statement failed")) ()).
  reflexivity.
Defined.

(** [get_sample_rows] at a server that answers every statement: one entry
    for each of the tables given. *)
Example get_sample_rows_entries :
  (get_sample_rows unit accepting_connect listing_execute dotted rows_csv
     (Some ["t"; "u"]) 5 "" "" "" "table" fresh_connector).1
  = Ok [ {| sample_identifier := "default.t"; sample_catalog_name := "";
            sample_database_name := "default"; sample_schema_name := "";
            sample_table_name := "t"; sample_table_type := "table";
            sample_rows := "2" |};
         {| sample_identifier := "default.u"; sample_catalog_name := "";
            sample_database_name := "default"; sample_schema_name := "";
            sample_table_name := "u"; sample_table_type := "table";
            sample_rows := "2" |} ].
Proof. by vm_compute. Qed.

Lemma nonempty_str_or (a b : string) : nonempty b = true → nonempty (str_or a b) = true.
Proof. intros Hb. unfold str_or. by destruct (nonempty a) eqn:Ha. Qed.

Lemma initial_database_name_nonempty (config : HiveConfig) :
  nonempty (initial_database_name config) = true.
Proof.
  unfold initial_database_name. destruct (database config) as [d|]; [|done].
  by apply nonempty_str_or.
Qed.

Section Qualified.

Variable World : Type.

(** X18.  On a connector whose database is the one that [__init__] sets,
    [config.database or "default"], or any other that is not empty, the
    branches for an empty database are never taken: [full_name] always
    gives the quoted database, a dot and the quoted table, and the
    statements of [get_tables] and [get_views] always name their database,
    whatever database the caller passes. *)
Theorem full_name_qualified (config : HiveConfig)
    (catalog_name db schema_name table_name : string) (self : connector World) :
  database_name self = initial_database_name config
  ∨ nonempty (database_name self) = true →
  full_name World catalog_name db schema_name table_name self
  = (Ok (_quote_identifier (str_or db (database_name self)) +:+ "."
         +:+ _quote_identifier table_name), self)
  ∧ tables_sql (str_or db (database_name self))
    = "SHOW TABLES IN " +:+ _quote_identifier (str_or db (database_name self))
  ∧ views_sql (str_or db (database_name self))
    = "SHOW VIEWS IN " +:+ _quote_identifier (str_or db (database_name self)).
Proof.
  intros H.
  assert (nonempty (str_or db (database_name self)) = true) as Hne.
  { apply nonempty_str_or. destruct H as [->|H]; [|done].
    apply initial_database_name_nonempty. }
  rewrite full_name_text. unfold qualified_name, tables_sql, views_sql.
  by rewrite Hne.
Qed.

End Qualified.

(** X18, for the connector of a configuration whose database is the
    empty string. *)
Lemma full_name_qualified_witness :
  full_name unit "" "" "" "t"
    {| database_name := initial_database_name empty_database_config;
       world := (); trace := [] |}
  = (Ok (_quote_identifier
           (str_or "" (database_name
                         {| database_name := initial_database_name empty_database_config;
                            world := (); trace := [] |}))
         +:+ "." +:+ _quote_identifier "t"),
     {| database_name := initial_database_name empty_database_config;
        world := (); trace := [] |})
  ∧ tables_sql "default" = "SHOW TABLES IN `default`"
  ∧ views_sql "default" = "SHOW VIEWS IN `default`".
Proof.
  apply (full_name_qualified unit empty_database_config "" "" "" "t"
           {| database_name := initial_database_name empty_database_config;
              world := (); trace := [] |}).
  left. reflexivity.
Defined.
